(** * poststack: type resolution, query model and SQL rendering

    A shallow embedding of the parts of the poststack packages that carry
    behaviour:

    - [packages/metadata]      the schema and query/command data model;
    - [packages/db-inspector]  [deduceType], [makeGetAttribute] and
                               [resolveTypes] (with its inner [resolveType]);
    - [packages/db-transport]  the fluent builders ([SelectBuilder],
                               [DeleteBuilder], ...) and the free function
                               [where];
    - [packages/sql-generator] [SqlGenerator.select] and
                               [SqlGenerator.generateCondition];
    - further: [snakeToPascal] and the grouping of [discoverEnums],
      [ApiClient.create], [DbTransport], [WebTransport] with
      [noTrailingSlash], the HTTP middleware's routing, and
      [dashedToCamel] of the option parser.

    Conventions.  A JavaScript [number] that the code uses as a count or an
    ordinal is an integer ([Z], or [nat] for the resolution counter, which
    starts at 0 and only grows).  [string | null] is [option string] with
    [None] for [null].  A function that may [throw] returns a [completion].
    The catalog queries, the HTTP layer and the pg-promise formatting
    primitives are external: the formatting primitives are parameters of the
    renderer. *)

From Stdlib Require Import String Ascii List Bool ZArith Arith.
From Stdlib Require Import DecimalString Lia.
From Equations Require Import Equations.
Import ListNotations.

Local Open Scope list_scope.
Local Open Scope string_scope.

Set Implicit Arguments.

(** ** JavaScript completions *)

(** The outcome of a call: a normal return value, or a thrown [Error] with
    its message. *)
Inductive completion (A : Type) : Type :=
| Normal (value : A)
| Throw (message : string).
Arguments Normal {A} value.
Arguments Throw {A} message.

(** [xs.includes(s)] on an array of strings. *)
Definition includes (xs : list string) (s : string) : bool :=
  existsb (String.eqb s) xs.

(** [xs.find(p)]: the first element satisfying [p], [None] for [undefined]. *)
Definition js_find {A : Type} (p : A -> bool) (xs : list A) : option A :=
  find p xs.

(** [a.join(sep)] on an array of strings. *)
Definition join (sep : string) (xs : list string) : string :=
  String.concat sep xs.

(** [s.includes(needle)] on strings: is [needle] a substring of [s]? *)
Fixpoint str_includes (needle s : string) : bool :=
  if String.prefix needle s then true
  else match s with
       | EmptyString => false
       | String _ rest => str_includes needle rest
       end.

(** [s.endsWith(suffix)]. *)
Definition endsWith (s suffix : string) : bool :=
  (String.length suffix <=? String.length s)%nat &&
  (String.substring (String.length s - String.length suffix)
                    (String.length suffix) s =? suffix).

(** [s.startsWith(p)]. *)
Definition startsWith (s p : string) : bool := String.prefix p s.

(** ** Characters *)

(** The classes [[a-z]], [[A-Z]] and [[0-9]] of a regular expression, and
    [\w], which is [[A-Za-z0-9_]]. *)
Definition is_lower (c : ascii) : bool :=
  (97 <=? nat_of_ascii c)%nat && (nat_of_ascii c <=? 122)%nat.

Definition is_upper (c : ascii) : bool :=
  (65 <=? nat_of_ascii c)%nat && (nat_of_ascii c <=? 90)%nat.

Definition is_digit (c : ascii) : bool :=
  (48 <=? nat_of_ascii c)%nat && (nat_of_ascii c <=? 57)%nat.

Definition is_word (c : ascii) : bool :=
  is_lower c || is_upper c || is_digit c || (c =? "_")%char.

(** [c.toUpperCase()] for one character of the ASCII range: the letters
    [a] to [z] move to [A] to [Z], every other character stays. *)
Definition upper (c : ascii) : ascii :=
  if is_lower c then ascii_of_nat (nat_of_ascii c - 32) else c.

(** [s.toUpperCase()], on text of the ASCII range. *)
Fixpoint toUpperCase (s : string) : string :=
  match s with
  | EmptyString => EmptyString
  | String c rest => String (upper c) (toUpperCase rest)
  end.

(** Does a letter of [a] to [z] occur in [s]? *)
Fixpoint has_lower (s : string) : bool :=
  match s with
  | EmptyString => false
  | String c rest => is_lower c || has_lower rest
  end.

(** [s.substring(start)], for [start] within the text. *)
Definition substring_from (start : nat) (s : string) : string :=
  String.substring start (String.length s - start) s.

(** ** packages/metadata *)

(** [TsType].  The inspector stores the display name ([tsName]) of the
    referenced enum or composite type in the tuple's second slot, and uses
    the transient tuple [[UNRESOLVED_UDT, udt]] (with [udt : string | null])
    between the two phases. *)
Inductive TsType : Type :=
| TsBoolean                                (* "boolean" *)
| TsNumber                                 (* "number" *)
| TsString                                 (* "string" *)
| TsDate                                   (* "Date" *)
| TsEnum (tsName : string)                 (* ["enum", enu.tsName] *)
| TsInterface (tsName : string)            (* ["interface", type.tsName] *)
| TsArray (inner : TsType)                 (* ["array", inner] *)
| UNRESOLVED_UDT (udt : option string).    (* [UNRESOLVED_UDT, udt] *)

Module AttributeData.
Record t : Type := mk
  { name : string;
    order : Z;
    nullable : bool;
    tsType : TsType }.
(** The assignment [attr.tsType = ty]. *)
Definition set_tsType (ty : TsType) (a : t) : t :=
  mk (name a) (order a) (nullable a) ty.
End AttributeData.

Module FieldData.
Record t : Type := mk { name : string; order : Z }.
End FieldData.

Module EnumData.
Record t : Type := mk
  { name : string;
    tsName : string;
    fields : list FieldData.t }.
End EnumData.

Module TypeData.
Record t : Type := mk
  { name : string;
    tsName : string;
    attributes : list AttributeData.t }.
Definition set_attributes (attrs : list AttributeData.t) (ty : t) : t :=
  mk (name ty) (tsName ty) attrs.
End TypeData.

Module TableData.
Record t : Type := mk
  { name : string;
    tsName : string;
    columns : list AttributeData.t }.
Definition set_columns (cols : list AttributeData.t) (tb : t) : t :=
  mk (name tb) (tsName tb) cols.
End TableData.

Module FuncData.
Record t : Type := mk
  { name : string;
    parameters : list AttributeData.t;
    returnType : TsType }.
Definition set_parameters (ps : list AttributeData.t) (f : t) : t :=
  mk (name f) ps (returnType f).
End FuncData.

Module SchemaData.
Record t : Type := mk
  { tables : list TableData.t;
    types : list TypeData.t;
    enums : list EnumData.t;
    functions : list FuncData.t }.
End SchemaData.

(** ** packages/db-inspector *)

Module UdtOptions.
Record t : Type := mk
  { string : list String.string;     (* udts.string *)
    number : list String.string }.   (* udts.number *)
End UdtOptions.

Module Inspector.

(** JavaScript truthiness of a [string | null]: [null] and the empty
    string are falsy. *)
Definition truthy (s : option string) : bool :=
  match s with
  | Some s => negb (s =? "")
  | None => false
  end.

(** [s === lit] for [s : string | null]. *)
Definition is_lit (s : option string) (lit : string) : bool :=
  match s with
  | Some s => s =? lit
  | None => false
  end.

(** [s && list.includes(s)], read as a condition. *)
Definition truthy_and_includes (xs : list string)
           (s : option string) : bool :=
  match s with
  | Some s' => truthy s && includes xs s'
  | None => false
  end.

(** The array literals of [isNumberType], [isStringType] and
    [isKnownDateType]. *)
Definition numberTypes : list string :=
  ["int2"; "int4"; "int8"; "bigint"; "money"; "numeric"].

Definition stringTypes : list string :=
  ["text"; "text_not_blank"; "uuid"; "citext"].

Definition knownDateTypes : list string :=
  ["timestamp"; "timestamptz"; "timestamp without time zone";
   "timestamp with time zone"].

Definition isNumberType (s : option string) : bool :=
  truthy_and_includes numberTypes s.

Definition isStringType (s : option string) : bool :=
  truthy_and_includes stringTypes s.

Definition isKnownDateType (s : option string) : bool :=
  truthy_and_includes knownDateTypes s.

(** The recursive call of [deduceType] passes [null] for [udt], and the
    array branch needs a non-null [udt]: this is the measure that makes
    the recursion well founded. *)
Definition udt_rank (udt : option string) : nat :=
  match udt with Some _ => 1 | None => 0 end.

(** [deduceType(type, udt, udts)]; [None] is the [null] result. *)
Equations deduceType (type : string) (udt : option string)
           (udts : UdtOptions.t) : option TsType by wf (udt_rank udt) lt :=
  deduceType type udt udts
    with ((type =? "boolean") || is_lit udt "boolean") => {
    | true := Some TsBoolean
    | false
        with (isNumberType (Some type) || isNumberType udt
              || includes (UdtOptions.number udts) type
              || truthy_and_includes (UdtOptions.number udts) udt) => {
      | true := Some TsNumber
      | false
          with (isStringType (Some type) || isStringType udt
                || includes (UdtOptions.string udts) type
                || truthy_and_includes (UdtOptions.string udts) udt) => {
        | true := Some TsString
        | false
            with (isKnownDateType (Some type) || isKnownDateType udt) => {
          | true := Some TsDate
          | false with (type =? "USER-DEFINED") => {
            | true := Some (UNRESOLVED_UDT udt)
            | false with (type =? "ARRAY"), udt => {
              | true, Some u :=
                  Some (TsArray
                          (match deduceType u None udts with
                           | Some arrayType => arrayType
                           | None => UNRESOLVED_UDT (Some u)
                           end))
              | _, _ := None } } } } } }.

(** The double-quote character of the error messages. *)
Definition dquote : string := String (ascii_of_nat 34) EmptyString.

(** [`${s}`] for [s : string | null]. *)
Definition show_nullable (s : option string) : string :=
  match s with
  | Some s => s
  | None => "null"
  end.

(** [forceDeduceType]: a [null] deduction is an error. *)
Definition forceDeduceType (type : string) (udt : option string)
           (udts : UdtOptions.t) : completion TsType :=
  match deduceType type udt udts with
  | Some t => Normal t
  | None =>
      Throw ("Unhandled type " ++ dquote ++ type ++ "/"
             ++ show_nullable udt ++ dquote ++ ".")
  end.

(** A row of the catalog's attribute or column listing. *)
Module AttrRecord.
Record t : Type := mk
  { name : string;
    order : Z;
    type : string;
    udt : option string;
    nullable : bool;
    table : string }.
End AttrRecord.

(** [udt.substring(0, udt.length - "_not_null".length)]. *)
Definition strip_not_null (udt : string) : string :=
  String.substring 0 (String.length udt - String.length "_not_null") udt.

(** [udt.substring(1)]. *)
Definition strip_first (udt : string) : string :=
  String.substring 1 (String.length udt - 1) udt.

(** [makeGetAttribute(udts)], applied to one row. *)
Definition makeGetAttribute (udts : UdtOptions.t) (r : AttrRecord.t)
  : completion AttributeData.t :=
  let '(nullable, udt) :=
    match AttrRecord.udt r with
    | Some u =>
        if endsWith u "_not_null"
        then (false, Some (strip_not_null u))
        else (AttrRecord.nullable r, Some u)
    | None => (AttrRecord.nullable r, None)
    end in
  let udt :=
    match udt with
    | Some u => if startsWith u "_" then Some (strip_first u) else Some u
    | None => None
    end in
  match deduceType (AttrRecord.type r) udt udts with
  | None =>
      Throw ("Unhandled type " ++ dquote ++ AttrRecord.type r ++ "/"
             ++ show_nullable udt ++ dquote ++ " for columns "
             ++ dquote ++ AttrRecord.name r ++ dquote ++ ".")
  | Some tsType =>
      Normal (AttributeData.mk (AttrRecord.name r) (AttrRecord.order r)
                               nullable tsType)
  end.

(** *** Phase 2: [resolveTypes] *)

(** The message of the error [resolveType] throws. *)
Definition cant_resolve (udt : option string) : string :=
  "Can't resolve type " ++ dquote ++ show_nullable udt ++ dquote ++ ".".

(** [t.name === column.tsType[1]], the second slot being a
    [string | null]. *)
Definition name_is (udt : option string) (name : string) : bool :=
  match udt with
  | Some u => name =? u
  | None => false
  end.

Section ResolveType.
(** [resolveType] is a closure over the schema's [enums] and [types];
    it reads only their [name] and [tsName]. *)
Variable enums : list EnumData.t.
Variable types : list TypeData.t.

(** [resolveType(column)].  The object [column] is represented by the
    content of its [tsType] field; the result pairs the content of that
    field when the call ends with the call's completion.  The field is
    assigned only on the paths that return 1, so a call that throws or
    returns 0 leaves it as it was. *)
Fixpoint resolveType (tsType : TsType) : TsType * completion nat :=
  match tsType with
  | TsArray (UNRESOLVED_UDT _ as element) =>
      (* const fakeColumn = { tsType: column.tsType[1] };
         resolveType(fakeColumn);
         column.tsType = ["array", fakeColumn.tsType]; return 1 *)
      match resolveType element with
      | (element', Normal _) => (TsArray element', Normal 1%nat)
      | (_, Throw message) => (tsType, Throw message)
      end
  | UNRESOLVED_UDT udt =>
      match js_find (fun t => name_is udt (TypeData.name t)) types with
      | Some type => (TsInterface (TypeData.tsName type), Normal 1%nat)
      | None =>
          match js_find (fun e => name_is udt (EnumData.name e)) enums with
          | Some enu => (TsEnum (EnumData.tsName enu), Normal 1%nat)
          | None => (tsType, Throw (cant_resolve udt))
          end
      end
  | _ => (tsType, Normal 0%nat)
  end.

(** [resolved += resolveType(attr)] on an attribute object. *)
Definition resolveAttribute (attr : AttributeData.t) (resolved : nat)
  : AttributeData.t * completion nat :=
  match resolveType (AttributeData.tsType attr) with
  | (ty, Normal n) =>
      (AttributeData.set_tsType ty attr, Normal (resolved + n)%nat)
  | (ty, Throw message) =>
      (AttributeData.set_tsType ty attr, Throw message)
  end.
End ResolveType.

(** [for (const x of xs) body(x)], where the body may update [x] and the
    counter [resolved], or throw: the elements after a throwing one are
    not visited. *)
Fixpoint for_of {X : Type} (body : X -> nat -> X * completion nat)
         (xs : list X) (resolved : nat) : list X * completion nat :=
  match xs with
  | [] => ([], Normal resolved)
  | x :: rest =>
      match body x resolved with
      | (x', Normal resolved') =>
          let '(rest', c) := for_of body rest resolved' in
          (x' :: rest', c)
      | (x', Throw message) => (x' :: rest, Throw message)
      end
  end.

Section Pass.
Variable enums : list EnumData.t.
Variable types : list TypeData.t.

(** [for (const attr of type.attributes) resolved += resolveType(attr)]. *)
Definition resolve_in_type (type : TypeData.t) (resolved : nat)
  : TypeData.t * completion nat :=
  let '(attrs, c) :=
    for_of (resolveAttribute enums types) (TypeData.attributes type)
           resolved in
  (TypeData.set_attributes attrs type, c).

(** [for (const column of table.columns) resolved += resolveType(column)]. *)
Definition resolve_in_table (table : TableData.t) (resolved : nat)
  : TableData.t * completion nat :=
  let '(cols, c) :=
    for_of (resolveAttribute enums types) (TableData.columns table)
           resolved in
  (TableData.set_columns cols table, c).

(** [for (const param of func.parameters) resolved += resolveType(param)]. *)
Definition resolve_in_func (func : FuncData.t) (resolved : nat)
  : FuncData.t * completion nat :=
  let '(ps, c) :=
    for_of (resolveAttribute enums types) (FuncData.parameters func)
           resolved in
  (FuncData.set_parameters ps func, c).
End Pass.

(** [resolveTypes(schema)]: the schema after the call (it is updated in
    place, also when the call throws) and the call's completion.

    The attribute objects of a schema built by [inspect] are pairwise
    distinct, so updating them one by one in a copy is the same as
    updating them in place.  The lookups read [name] and [tsName] only,
    which the pass never writes, so they are done on the lists as they
    were at entry. *)
Definition resolveTypes (schema : SchemaData.t)
  : SchemaData.t * completion nat :=
  let enums := SchemaData.enums schema in
  let types := SchemaData.types schema in
  let tables := SchemaData.tables schema in
  let functions := SchemaData.functions schema in
  let '(types', c) := for_of (resolve_in_type enums types) types 0%nat in
  match c with
  | Throw message =>
      (SchemaData.mk tables types' enums functions, Throw message)
  | Normal resolved =>
      let '(tables', c) :=
        for_of (resolve_in_table enums types) tables resolved in
      match c with
      | Throw message =>
          (SchemaData.mk tables' types' enums functions, Throw message)
      | Normal resolved =>
          let '(functions', c) :=
            for_of (resolve_in_func enums types) functions resolved in
          (SchemaData.mk tables' types' enums functions', c)
      end
  end.

(** *** [snakeToPascal] and the grouping of [discoverEnums] *)

(** [s.replace(/_(\w)/g, (_, w) => w.toUpperCase())]: from left to right,
    an underscore and the word character after it are replaced by that
    character in upper case, and the search goes on after the pair. *)
Fixpoint replace_underscore_word (s : string) : string :=
  match s with
  | EmptyString => EmptyString
  | String c rest =>
      if (c =? "_")%char then
        match rest with
        | String w rest' =>
            if is_word w
            then String (upper w) (replace_underscore_word rest')
            else String c (replace_underscore_word rest)
        | EmptyString => String c EmptyString
        end
      else String c (replace_underscore_word rest)
  end.

(** [snakeToPascal(word)].  On the empty word [word[0]] is [undefined] and
    the call of [toUpperCase] on it throws a [TypeError]. *)
Definition snakeToPascal (word : string) : completion string :=
  match word with
  | EmptyString => Throw "TypeError: word[0] is undefined"
  | String c _ =>
      Normal (String (upper c)
                     (replace_underscore_word (substring_from 1 word)))
  end.

(** A row of the enum label listing. *)
Module EnumRow.
Record t : Type := mk
  { name : string;
    order : Z;
    enum_name : string }.
End EnumRow.

(** [enu.fields.push(field)], [enu] being the first enum of [enums] named
    [enum_name]. *)
Fixpoint push_field (enum_name : string) (field : FieldData.t)
         (enums : list EnumData.t) : list EnumData.t :=
  match enums with
  | [] => []
  | e :: rest =>
      if EnumData.name e =? enum_name
      then EnumData.mk (EnumData.name e) (EnumData.tsName e)
                       (EnumData.fields e ++ [field])%list :: rest
      else e :: push_field enum_name field rest
  end.

(** The callback of the [reduce] in [discoverEnums]. *)
Definition groupEnumRow (enums : list EnumData.t) (row : EnumRow.t)
  : completion (list EnumData.t) :=
  let field := FieldData.mk (EnumRow.name row) (EnumRow.order row) in
  match js_find (fun e => EnumData.name e =? EnumRow.enum_name row) enums with
  | Some _ => Normal (push_field (EnumRow.enum_name row) field enums)
  | None =>
      match snakeToPascal (EnumRow.enum_name row) with
      | Normal tsName =>
          Normal (enums ++ [EnumData.mk (EnumRow.enum_name row) tsName
                                        [field]])%list
      | Throw message => Throw message
      end
  end.

(** [rows.reduce(callback, initial)] for a callback that may throw. *)
Fixpoint reduce {A B : Type} (callback : B -> A -> completion B)
         (rows : list A) (accumulator : B) : completion B :=
  match rows with
  | [] => Normal accumulator
  | row :: rest =>
      match callback accumulator row with
      | Normal accumulator' => reduce callback rest accumulator'
      | Throw message => Throw message
      end
  end.

(** [discoverEnums], from the rows its query returned. *)
Definition discoverEnums (rows : list EnumRow.t)
  : completion (list EnumData.t) :=
  reduce groupEnumRow rows [].

(** *** The routines of [discoverFunctions] *)

(** A row of the routine listing, and a row of a routine's parameter
    listing. *)
Module RoutineRow.
Record t : Type := mk
  { name : string;
    type : string;
    udt : option string;
    specific_name : string }.
End RoutineRow.

Module ParamRow.
Record t : Type := mk
  { name : string;
    type : string;
    udt : option string;
    order : Z }.
End ParamRow.

(** [rows.map(callback)] for a callback that may throw. *)
Fixpoint map_throwing {A B : Type} (callback : A -> completion B)
         (rows : list A) : completion (list B) :=
  match rows with
  | [] => Normal []
  | row :: rest =>
      match callback row with
      | Normal b =>
          match map_throwing callback rest with
          | Normal bs => Normal (b :: bs)
          | Throw message => Throw message
          end
      | Throw message => Throw message
      end
  end.

(** The parameter [discoverFunctions] makes of a row. *)
Definition makeParameter (udts : UdtOptions.t) (p : ParamRow.t)
  : completion AttributeData.t :=
  match forceDeduceType (ParamRow.type p) (ParamRow.udt p) udts with
  | Normal tsType =>
      Normal (AttributeData.mk (ParamRow.name p) (ParamRow.order p)
                               false tsType)
  | Throw message => Throw message
  end.

(** The routine [discoverFunctions] makes of a row of the routine listing
    and the rows of its parameter listing: the return type is deduced
    first, then the parameters in order. *)
Definition makeFunction (udts : UdtOptions.t) (r : RoutineRow.t)
           (parameters : list ParamRow.t) : completion FuncData.t :=
  match forceDeduceType (RoutineRow.type r) (RoutineRow.udt r) udts with
  | Normal returnType =>
      match map_throwing (makeParameter udts) parameters with
      | Normal ps => Normal (FuncData.mk (RoutineRow.name r) ps returnType)
      | Throw message => Throw message
      end
  | Throw message => Throw message
  end.

End Inspector.

(** ** packages/metadata: queries and commands *)

(** The values a caller hands to [where] and that a condition carries
    (TypeScript's [any], restricted to the JSON scalars and [undefined]). *)
Inductive JsValue : Type :=
| JsUndefined
| JsNull
| JsBoolean (b : bool)
| JsNumber (n : Z)
| JsString (s : string).

(** [Condition = UnaryCondition | BinaryCondition], tagged by [arity]. *)
Inductive Condition : Type :=
| UnaryCondition (column : string) (operator : string)             (* arity: 1 *)
| BinaryCondition (column : string) (operator : string) (value : JsValue).
                                                                   (* arity: 2 *)

Module OrderBy.
Record t : Type := mk
  { columns : list string;
    direction : string }.
End OrderBy.

Module SelectQuery.
Record t : Type := mk
  { table : string;
    limit : option Z;
    offset : option Z;
    conditions : option (list Condition);
    selected : option (list string);
    orderBy : option OrderBy.t }.
Definition set_table (table' : string) (q : t) : t :=
  mk table' (limit q) (offset q) (conditions q) (selected q) (orderBy q).
End SelectQuery.

Module UpdateCommand.
Record t : Type := mk
  { table : string;
    conditions : option (list Condition);
    returning : option (list string) }.
End UpdateCommand.

Module InsertCommand.
Record t : Type := mk
  { table : string;
    returning : option (list string) }.
End InsertCommand.

Module DeleteCommand.
Record t : Type := mk
  { table : string;
    conditions : option (list Condition);
    returning : option (list string) }.
(** [DeleteCommand] and [UpdateCommand] have the same members, so
    TypeScript accepts a [DeleteCommand] where an [UpdateCommand] is
    expected; the object is passed as it is. *)
Definition as_UpdateCommand (c : t) : UpdateCommand.t :=
  UpdateCommand.mk (table c) (conditions c) (returning c).
End DeleteCommand.

Module CallCommand.
Record t : Type := mk
  { procedure : string;
    parameters : option (list JsValue) }.
End CallCommand.

(** [ApiTransport]; [R] stands for the promises the operations return. *)
Module ApiTransport.
Record t (R : Type) : Type := mk
  { select : SelectQuery.t -> R;
    insert : InsertCommand.t -> R;
    update : UpdateCommand.t -> R;
    delete : DeleteCommand.t -> R;
    call : CallCommand.t -> R }.
End ApiTransport.

(** ** packages/sql-generator *)

(** The three pg-promise formatting primitives the generator calls
    ([format.name], [format.value], [format.number]). *)
Module IFormatting.
Record t : Type := mk
  { name : string -> string;
    value : JsValue -> string;
    number : Z -> string }.
End IFormatting.

Module SqlGenerator.

(** The line break of the template literal. *)
Definition LF : string := String (ascii_of_nat 10) EmptyString.

(** [`${where}`] for [where : undefined | boolean]. *)
Definition show_where (w : option bool) : string :=
  match w with
  | None => "undefined"
  | Some true => "true"
  | Some false => "false"
  end.

(** Truthiness of an optional number ([undefined] and [0] are falsy). *)
Definition truthy_number (n : option Z) : bool :=
  match n with
  | Some n => negb (n =? 0)%Z
  | None => false
  end.

Section Generator.
Variable format : IFormatting.t.

Definition generateCondition (condition : Condition) : string :=
  match condition with
  | UnaryCondition column operator =>
      IFormatting.name format column ++ " " ++ operator
  | BinaryCondition column operator value =>
      IFormatting.name format column
      ++ " " ++ operator ++ IFormatting.value format value
  end.

Definition select (select : SelectQuery.t) : string :=
  let columns :=
    match SelectQuery.selected select with
    | Some selected => join "," (map (IFormatting.name format) selected)
    | None => "*"
    end in
  let where_ :=
    match SelectQuery.conditions select with
    | Some conditions => Some (0 <? List.length conditions)%nat
    | None => None
    end in
  let conditions :=
    match SelectQuery.conditions select with
    | Some conditions => join " and " (map generateCondition conditions)
    | None => ""
    end in
  let limit :=
    match SelectQuery.limit select with
    | Some n =>
        if truthy_number (Some n)
        then "limit " ++ IFormatting.number format n else ""
    | None => ""
    end in
  let offset :=
    match SelectQuery.offset select with
    | Some n =>
        if truthy_number (Some n)
        then "offset " ++ IFormatting.number format n else ""
    | None => ""
    end in
  let orderBy :=
    match SelectQuery.orderBy select with
    | None => ""
    | Some o =>
        "order by "
        ++ join ", " (map (IFormatting.name format) (OrderBy.columns o))
        ++ OrderBy.direction o
    end in
  LF ++ "      select " ++ columns
  ++ LF ++ "      from " ++ SelectQuery.table select
  ++ LF ++ "      " ++ show_where where_ ++ " " ++ conditions
  ++ LF ++ "      " ++ limit
  ++ LF ++ "      " ++ offset
  ++ LF ++ "      " ++ orderBy
  ++ LF ++ "    ".

End Generator.
End SqlGenerator.

(** ** packages/db-transport: the fluent client *)

Module Client.

Definition unaryOperators : list string := ["is null"; "is not null"].

Definition binaryOperators : list string := ["="; ">"; "<"; ">="; "<="].

(** [operators.indexOf(o) !== -1]: [indexOf] compares with [===], so only a
    string can be found. *)
Definition isUnaryOperator (o : JsValue) : bool :=
  match o with
  | JsString s => includes unaryOperators s
  | _ => false
  end.

Definition isBinaryOperator (o : JsValue) : bool :=
  match o with
  | JsString s => includes binaryOperators s
  | _ => false
  end.

(** The text of an operator that [isUnaryOperator] or [isBinaryOperator]
    accepted. *)
Definition operator_text (o : JsValue) : string :=
  match o with
  | JsString s => s
  | _ => ""
  end.

Definition is_undefined (v : JsValue) : bool :=
  match v with
  | JsUndefined => true
  | _ => false
  end.

(** The structural type [{ conditions?: Condition[] }] of [where]'s
    [query] argument. *)
Class HasConditions (Q : Type) : Type :=
  { get_conditions : Q -> option (list Condition);
    set_conditions : option (list Condition) -> Q -> Q }.

#[global] Instance SelectQuery_conditions : HasConditions SelectQuery.t :=
  { get_conditions := SelectQuery.conditions;
    set_conditions cs q :=
      SelectQuery.mk (SelectQuery.table q) (SelectQuery.limit q)
                     (SelectQuery.offset q) cs (SelectQuery.selected q)
                     (SelectQuery.orderBy q) }.

#[global] Instance UpdateCommand_conditions : HasConditions UpdateCommand.t :=
  { get_conditions := UpdateCommand.conditions;
    set_conditions cs c :=
      UpdateCommand.mk (UpdateCommand.table c) cs (UpdateCommand.returning c) }.

#[global] Instance DeleteCommand_conditions : HasConditions DeleteCommand.t :=
  { get_conditions := DeleteCommand.conditions;
    set_conditions cs c :=
      DeleteCommand.mk (DeleteCommand.table c) cs (DeleteCommand.returning c) }.

(** [query.conditions.push(c)], after [query.conditions] was defaulted to
    the empty array. *)
Definition push_condition {Q : Type} `{HasConditions Q}
           (c : Condition) (query : Q) : Q :=
  let conditions :=
    match get_conditions query with
    | Some conditions => conditions
    | None => []
    end in
  set_conditions (Some (conditions ++ [c])%list) query.

(** The free function [where(column, query, operator, value)]. *)
Definition where_ {Q : Type} `{HasConditions Q} (column : string) (query : Q)
           (operator value : JsValue) : Q :=
  if negb (is_undefined value) && isBinaryOperator operator then
    push_condition (BinaryCondition column (operator_text operator) value)
                   query
  else if isUnaryOperator operator then
    push_condition (UnaryCondition column (operator_text operator)) query
  else
    push_condition (BinaryCondition column "=" operator) query.

(** The [columns] argument of [select] and [returning]: ["*"] or a list of
    column names. *)
Inductive ColumnsArg : Type :=
| AllColumns
| ColumnList (columns : list string).

(** [columns === "*" ? ["*"] : columns]. *)
Definition returning_set (columns : ColumnsArg) : list string :=
  match columns with
  | AllColumns => ["*"]
  | ColumnList columns => columns
  end.

(** [`${direction}`] for [direction : string | undefined]. *)
Definition show_undefined (s : option string) : string :=
  match s with
  | Some s => s
  | None => "undefined"
  end.

(** [direction || "asc"]: [undefined] and the empty string are falsy. *)
Definition or_asc (direction : option string) : string :=
  match direction with
  | Some d => if d =? "" then "asc" else d
  | None => "asc"
  end.

(** [direction === lit] for [direction : string | undefined]. *)
Definition direction_is (direction : option string) (lit : string) : bool :=
  match direction with
  | Some d => d =? lit
  | None => false
  end.

Module SelectBuilder.
Record t (R : Type) : Type := mk
  { transport : ApiTransport.t R;
    table : TableData.t;
    query : SelectQuery.t }.

Definition set_query {R : Type} (q : SelectQuery.t) (b : t R) : t R :=
  mk (transport b) (table b) q.

(** [new SelectBuilder(transport, table, columns)]. *)
Definition new {R : Type} (transport : ApiTransport.t R)
           (table : TableData.t) (columns : ColumnsArg) : t R :=
  mk transport table
     (SelectQuery.mk (TableData.name table) None None None
                     (match columns with
                      | ColumnList columns => Some columns
                      | AllColumns => None
                      end)
                     None).

Definition fetch {R : Type} (b : t R) : R :=
  ApiTransport.select (transport b) (query b).

Definition limit {R : Type} (n : Z) (b : t R) : t R :=
  let q := query b in
  set_query (SelectQuery.mk (SelectQuery.table q) (Some n)
                            (SelectQuery.offset q) (SelectQuery.conditions q)
                            (SelectQuery.selected q) (SelectQuery.orderBy q))
            b.

Definition offset {R : Type} (n : Z) (b : t R) : t R :=
  let q := query b in
  set_query (SelectQuery.mk (SelectQuery.table q) (SelectQuery.limit q)
                            (Some n) (SelectQuery.conditions q)
                            (SelectQuery.selected q) (SelectQuery.orderBy q))
            b.

(** The method [where(column, operator, value?)]. *)
Definition where_ {R : Type} (column : string) (operator value : JsValue)
           (b : t R) : t R :=
  set_query (Client.where_ column (query b) operator value) b.

(** [orderBy(columns, direction?)]; an omitted [direction] is [None]. *)
Definition orderBy {R : Type} (columns : list string)
           (direction : option string) (b : t R) : completion (t R) :=
  if negb (direction_is direction "asc")
     && negb (direction_is direction "desc")
  then
    Throw ("Invalid orderBy direction: " ++ Inspector.dquote
           ++ show_undefined direction ++ Inspector.dquote ++ ".")
  else
    let q := query b in
    Normal
      (set_query
         (SelectQuery.mk (SelectQuery.table q) (SelectQuery.limit q)
                         (SelectQuery.offset q) (SelectQuery.conditions q)
                         (SelectQuery.selected q)
                         (Some (OrderBy.mk columns (or_asc direction))))
         b).
End SelectBuilder.

Module InsertBuilder.
Record t (R : Type) : Type := mk
  { transport : ApiTransport.t R;
    table : TableData.t;
    command : InsertCommand.t }.

Definition new {R : Type} (transport : ApiTransport.t R)
           (table : TableData.t) : t R :=
  mk transport table (InsertCommand.mk (TableData.name table) None).

Definition execute {R : Type} (b : t R) : R :=
  ApiTransport.insert (transport b) (command b).

Definition returning {R : Type} (columns : ColumnsArg) (b : t R) : t R :=
  mk (transport b) (table b)
     (InsertCommand.mk (InsertCommand.table (command b))
                       (Some (returning_set columns))).
End InsertBuilder.

Module UpdateBuilder.
Record t (R : Type) : Type := mk
  { transport : ApiTransport.t R;
    table : TableData.t;
    command : UpdateCommand.t }.

Definition new {R : Type} (transport : ApiTransport.t R)
           (table : TableData.t) : t R :=
  mk transport table (UpdateCommand.mk (TableData.name table) None None).

Definition execute {R : Type} (b : t R) : R :=
  ApiTransport.update (transport b) (command b).

Definition returning {R : Type} (columns : ColumnsArg) (b : t R) : t R :=
  mk (transport b) (table b)
     (UpdateCommand.mk (UpdateCommand.table (command b))
                       (UpdateCommand.conditions (command b))
                       (Some (returning_set columns))).

Definition where_ {R : Type} (column : string) (operator value : JsValue)
           (b : t R) : t R :=
  mk (transport b) (table b)
     (Client.where_ column (command b) operator value).
End UpdateBuilder.

Module DeleteBuilder.
Record t (R : Type) : Type := mk
  { transport : ApiTransport.t R;
    table : TableData.t;
    command : DeleteCommand.t }.

Definition new {R : Type} (transport : ApiTransport.t R)
           (table : TableData.t) : t R :=
  mk transport table (DeleteCommand.mk (TableData.name table) None None).

(** [return this.transport.update(this.command)]. *)
Definition execute {R : Type} (b : t R) : R :=
  ApiTransport.update (transport b)
                      (DeleteCommand.as_UpdateCommand (command b)).

Definition returning {R : Type} (columns : ColumnsArg) (b : t R) : t R :=
  mk (transport b) (table b)
     (DeleteCommand.mk (DeleteCommand.table (command b))
                       (DeleteCommand.conditions (command b))
                       (Some (returning_set columns))).

Definition where_ {R : Type} (column : string) (operator value : JsValue)
           (b : t R) : t R :=
  mk (transport b) (table b)
     (Client.where_ column (command b) operator value).
End DeleteBuilder.

(** [ClientTableApi]: the per-table entry points. *)
Module ClientTableApi.
Record t (R : Type) : Type := mk
  { transport : ApiTransport.t R;
    table : TableData.t }.

Definition select {R : Type} (api : t R) (columns : ColumnsArg)
  : SelectBuilder.t R :=
  SelectBuilder.new (transport api) (table api) columns.

Definition insert {R : Type} (api : t R) : InsertBuilder.t R :=
  InsertBuilder.new (transport api) (table api).

Definition update {R : Type} (api : t R) : UpdateBuilder.t R :=
  UpdateBuilder.new (transport api) (table api).

Definition delete {R : Type} (api : t R) : DeleteBuilder.t R :=
  DeleteBuilder.new (transport api) (table api).
End ClientTableApi.

(** [ApiClient.create]: the client object, as the map from the names of
    its own properties to what they hold.  The order in which an object
    lists its properties is not part of it. *)
Module ApiClient.

(** What a property of the client holds: the API of a table, or the
    function that calls a routine. *)
Inductive Member (R : Type) : Type :=
| TableMember (api : ClientTableApi.t R)
| FunctionMember (call : list JsValue -> R).
Arguments FunctionMember {R} call.

(** [functionApi(transport, func)]. *)
Definition functionApi {R : Type} (transport : ApiTransport.t R)
           (func : FuncData.t) : list JsValue -> R :=
  fun parameters =>
    ApiTransport.call transport
                      (CallCommand.mk (FuncData.name func) (Some parameters)).

(** The own properties of an object: [None] for a name it does not have. *)
Definition Object (R : Type) : Type := string -> option (Member R).

(** The object [{}]. *)
Definition empty {R : Type} : Object R := fun _ => None.

(** [Object.defineProperty(o, p, { value, enumerable: true })].  The
    property it defines can be neither written nor configured, so defining
    [p] once more, with another value, throws a [TypeError]. *)
Definition define {R : Type} (o : Object R) (p : string) (value : Member R)
  : completion (Object R) :=
  match o p with
  | Some _ => Throw ("TypeError: Cannot redefine property: " ++ p)
  | None => Normal (fun q => if q =? p then Some value else o q)
  end.

(** [for (const x of xs) define(client, name(x), member(x))]. *)
Fixpoint define_each {R X : Type} (name_of : X -> string)
         (member : X -> Member R) (xs : list X) (client : Object R)
  : completion (Object R) :=
  match xs with
  | [] => Normal client
  | x :: rest =>
      match define client (name_of x) (member x) with
      | Normal client' => define_each name_of member rest client'
      | Throw message => Throw message
      end
  end.

(** [ApiClient.create(api, transport)]; only [api.schema] is read. *)
Definition create {R : Type} (schema : SchemaData.t)
           (transport : ApiTransport.t R) : completion (Object R) :=
  match define_each TableData.name
                    (fun table =>
                       TableMember (ClientTableApi.mk transport table))
                    (SchemaData.tables schema) empty with
  | Normal client =>
      define_each FuncData.name
                  (fun func => FunctionMember (functionApi transport func))
                  (SchemaData.functions schema) client
  | Throw message => Throw message
  end.

(** [client[p]], for an own property. *)
Definition get {R : Type} (client : Object R) (p : string)
  : option (Member R) :=
  client p.
End ApiClient.

End Client.

(** [DbTransport]: only [select] is implemented. *)
Module DbTransport.
(** [new DbTransport(db, format)]; [db_any] stands for [db.any]. *)
Definition new {R : Type} (db_any : string -> R) (format : IFormatting.t)
  : ApiTransport.t (completion R) :=
  ApiTransport.mk
    (fun select => Normal (db_any (SqlGenerator.select format select)))
    (fun _ => Throw "Method not implemented.")
    (fun _ => Throw "Method not implemented.")
    (fun _ => Throw "Method not implemented.")
    (fun _ => Throw "Method not implemented.").
End DbTransport.

(** ** The HTTP transport and the middleware *)

Module WebTransport.

Definition noTrailingSlash (s : string) : string :=
  if endsWith s "/" then substring_from (String.length s - 1) s else s.

(** The [body] argument of [request]. *)
Inductive Body : Type :=
| InsertBody (insert : InsertCommand.t)
| UpdateBody (update : UpdateCommand.t)
| DeleteBody (del : DeleteCommand.t)
| CallBody (call : CallCommand.t).

Section Transport.
Variable R : Type.
(** [request(method, url, body?)], which performs the HTTP exchange. *)
Variable request : string -> string -> option Body -> R.
(** [encodeURIComponent(JSON.stringify(select))]. *)
Variable qstring : SelectQuery.t -> string.

(** [new WebTransport(baseUrl)]. *)
Definition new (baseUrl : string) : ApiTransport.t R :=
  let baseUrl := noTrailingSlash baseUrl in
  ApiTransport.mk
    (fun select =>
       request "get" (baseUrl ++ "/select?query=" ++ qstring select) None)
    (fun insert =>
       request "post" (baseUrl ++ "/insert") (Some (InsertBody insert)))
    (fun update =>
       request "patch" (baseUrl ++ "/update") (Some (UpdateBody update)))
    (fun del =>
       request "delete" (baseUrl ++ "/delete") (Some (DeleteBody del)))
    (fun call =>
       request "post" (baseUrl ++ "/call") (Some (CallBody call))).
End Transport.
End WebTransport.

Module Middleware.

(** What the middleware reads of the Koa context: the method, the path,
    the [query] parameter of the query string, and the text [readBody]
    collects. *)
Module Context.
Record t : Type := mk
  { method : string;
    path : string;
    query : string;
    body : string }.
End Context.

(** What it writes to [context.response]. *)
Module Response.
Record t : Type := mk
  { type : option string;
    status : option Z;
    body : option string }.
End Response.

Section Middleware.
Variable R : Type.
(** The transport; [R] is what its promises resolve to. *)
Variable api : ApiTransport.t R.
(** [JSON.parse], which may throw, at each of the types the transport
    takes, and [JSON.stringify]. *)
Variable parseSelect : string -> completion SelectQuery.t.
Variable parseInsert : string -> completion InsertCommand.t.
Variable parseUpdate : string -> completion UpdateCommand.t.
Variable parseDelete : string -> completion DeleteCommand.t.
Variable parseCall : string -> completion CallCommand.t.
Variable stringify : R -> string.
(** [String.prototype.toUpperCase]. *)
Variable upperCase : string -> string.

(** One case of the [switch]: parse, call the transport, write the body. *)
Definition respond {Q : Type} (parse : string -> completion Q)
           (operation : Q -> R) (text : string) : completion Response.t :=
  match parse text with
  | Normal query =>
      Normal (Response.mk (Some "application/json") None
                          (Some (stringify (operation query))))
  | Throw message => Throw message
  end.

(** The handler [middleware(api)] returns, applied to a context. *)
Definition middleware (context : Context.t) : completion Response.t :=
  let route :=
    upperCase (Context.method context) ++ " "
    ++ upperCase (Context.path context) in
  if route =? "GET select" then
    respond parseSelect (ApiTransport.select api) (Context.query context)
  else if route =? "POST insert" then
    respond parseInsert (ApiTransport.insert api) (Context.body context)
  else if route =? "PATCH update" then
    respond parseUpdate (ApiTransport.update api) (Context.body context)
  else if route =? "DELETE delete" then
    respond parseDelete (ApiTransport.delete api) (Context.body context)
  else if route =? "POST call" then
    respond parseCall (ApiTransport.call api) (Context.body context)
  else
    Normal (Response.mk (Some "application/json") (Some 404%Z) None).
End Middleware.
End Middleware.

(** ** The option parser's helpers *)

Module Options.
(** [dashed.replace(/-[a-z]/g, ([, c]) => c.toUpperCase())]: from left to
    right, a dash and the lower-case letter after it are replaced by that
    letter in upper case, and the search goes on after the pair. *)
Fixpoint dashedToCamel (dashed : string) : string :=
  match dashed with
  | EmptyString => EmptyString
  | String c rest =>
      if (c =? "-")%char then
        match rest with
        | String l rest' =>
            if is_lower l
            then String (upper l) (dashedToCamel rest')
            else String c (dashedToCamel rest)
        | EmptyString => String c EmptyString
        end
      else String c (dashedToCamel rest)
  end.
End Options.

(** ** Vocabulary of the statements *)

(** Does the transient marker occur in a type, at any depth of array
    nesting? *)
Fixpoint has_marker (t : TsType) : bool :=
  match t with
  | UNRESOLVED_UDT _ => true
  | TsArray inner => has_marker inner
  | _ => false
  end.

(** The shapes in which phase 1 leaves a marker: on its own, or directly
    inside one array. *)
Definition phase1_shaped (t : TsType) : bool :=
  match t with
  | UNRESOLVED_UDT _ => true
  | TsArray (UNRESOLVED_UDT _) => true
  | _ => negb (has_marker t)
  end.

Definition attr_marker_free (a : AttributeData.t) : Prop :=
  has_marker (AttributeData.tsType a) = false.

Definition attr_shaped (a : AttributeData.t) : Prop :=
  phase1_shaped (AttributeData.tsType a) = true.

(** The attributes the resolution pass visits: the attributes of the
    composite types, the columns of the tables and the parameters of the
    routines. *)
Definition schema_attributes (s : SchemaData.t) : list AttributeData.t :=
  (flat_map TypeData.attributes (SchemaData.types s)
   ++ flat_map TableData.columns (SchemaData.tables s)
   ++ flat_map FuncData.parameters (SchemaData.functions s))%list.

(** Every [TsType] a schema holds: those of its attributes and the return
    types of its routines. *)
Definition schema_types (s : SchemaData.t) : list TsType :=
  (map AttributeData.tsType (schema_attributes s)
   ++ map FuncData.returnType (SchemaData.functions s))%list.

(** What the pass must not touch. *)
Definition attribute_frame (a : AttributeData.t) : string * Z * bool :=
  (AttributeData.name a, AttributeData.order a, AttributeData.nullable a).

Definition type_frame (t : TypeData.t)
  : string * string * list (string * Z * bool) :=
  (TypeData.name t, TypeData.tsName t,
   map attribute_frame (TypeData.attributes t)).

Definition table_frame (t : TableData.t)
  : string * string * list (string * Z * bool) :=
  (TableData.name t, TableData.tsName t,
   map attribute_frame (TableData.columns t)).

Definition func_frame (f : FuncData.t)
  : string * TsType * list (string * Z * bool) :=
  (FuncData.name f, FuncData.returnType f,
   map attribute_frame (FuncData.parameters f)).

Definition schema_frame (s : SchemaData.t) :=
  (map table_frame (SchemaData.tables s),
   map type_frame (SchemaData.types s),
   SchemaData.enums s,
   map func_frame (SchemaData.functions s)).

(** [x] is the first element of [xs] whose name is [n]: what a lookup by
    name finds. *)
Definition first_named {A : Type} (name_of : A -> string) (n : string)
           (xs : list A) (x : A) : Prop :=
  exists before after,
    xs = (before ++ x :: after)%list
    /\ name_of x = n
    /\ Forall (fun y => name_of y <> n) before.

(** No element of [xs] has the name [n]. *)
Definition none_named {A : Type} (name_of : A -> string) (n : string)
           (xs : list A) : Prop :=
  Forall (fun y => name_of y <> n) xs.

(** [x] is a name that phase 1 maps to a scalar when it stands alone as a
    raw type name: a built-in boolean, numeric, text or timestamp name, or a
    name on one of the caller's allow-lists. *)
Definition scalar_name (udts : UdtOptions.t) (x : string) : bool :=
  (x =? "boolean")
  || includes Inspector.numberTypes x
  || includes (UdtOptions.number udts) x
  || includes Inspector.stringTypes x
  || includes (UdtOptions.string udts) x
  || includes Inspector.knownDateTypes x.

(** [needle] occurs in [s]. *)
Definition occurs_in (needle s : string) : Prop :=
  exists before after, s = before ++ needle ++ after.

(** *** Sample data *)

Module Examples.

Definition no_udts : UdtOptions.t := UdtOptions.mk [] [].

(** Allow-lists whose string list holds the empty name. *)
Definition blank_string_udts : UdtOptions.t := UdtOptions.mk [""] [].

Definition mood : EnumData.t :=
  EnumData.mk "mood" "Mood"
              [FieldData.mk "happy" 1; FieldData.mk "sad" 2].

Definition address : TypeData.t :=
  TypeData.mk "address" "Address"
              [AttributeData.mk "street" 1 false TsString].

Definition attribute_of (t : TsType) : AttributeData.t :=
  AttributeData.mk "tags" 1 true t.

(** A schema with one table, [people], whose only column has type [t]. *)
Definition people (t : TsType) : SchemaData.t :=
  SchemaData.mk [TableData.mk "people" "People" [attribute_of t]]
                [address] [mood] [].

(** Decimal notation of an integer. *)
Definition decimal (n : Z) : string := NilZero.string_of_int (Z.to_int n).

Definition show_value (v : JsValue) : string :=
  match v with
  | JsUndefined => "undefined"
  | JsNull => "null"
  | JsBoolean true => "true"
  | JsBoolean false => "false"
  | JsNumber n => decimal n
  | JsString s => s
  end.

(** Formatting primitives that mark what they format: a name goes between
    double quotes, a value between single quotes. *)
Definition marking : IFormatting.t :=
  IFormatting.mk (fun s => Inspector.dquote ++ s ++ Inspector.dquote)
                 (fun v => "'" ++ show_value v ++ "'")
                 decimal.

(** Formatting primitives that forget what they format: whatever these
    let through of a query's own text did not pass through them. *)
Definition erasing : IFormatting.t :=
  IFormatting.mk (fun _ => "<name>") (fun _ => "<value>")
                 (fun _ => "<number>").

(** A transport that answers with the name of the operation called. *)
Definition recorder : ApiTransport.t string :=
  ApiTransport.mk (fun _ => "select") (fun _ => "insert")
                  (fun _ => "update") (fun _ => "delete")
                  (fun _ => "call").

Definition users : TableData.t :=
  TableData.mk "users" "Users"
               [AttributeData.mk "id" 1 false TsNumber;
                AttributeData.mk "status" 2 false TsString].

Definition users_api : Client.ClientTableApi.t string :=
  Client.ClientTableApi.mk recorder users.

(** [users.select(["id"]).where("status", "=", "active").limit(10)]. *)
Definition active_users : Client.SelectBuilder.t string :=
  Client.SelectBuilder.limit 10
    (Client.SelectBuilder.where_ "status" (JsString "=") (JsString "active")
       (Client.ClientTableApi.select users_api (Client.ColumnList ["id"]))).

(** A routine with no parameter that returns a value of the enum [mood]:
    its row in the routine listing, the routine [discoverFunctions] makes
    of it, and a schema that holds it beside the enum. *)
Definition current_mood_row : Inspector.RoutineRow.t :=
  Inspector.RoutineRow.mk "current_mood" "USER-DEFINED" (Some "mood")
                          "current_mood_16400".

Definition current_mood : FuncData.t :=
  FuncData.mk "current_mood" [] (UNRESOLVED_UDT (Some "mood")).

Definition mood_routine : SchemaData.t :=
  SchemaData.mk [] [address] [mood] [current_mood].

End Examples.

(** *** Further vocabulary *)

(** The name phase 2 looks up for a type: that of a marker on its own or
    directly inside one array.  [None] when phase 2 leaves the type alone. *)
Definition target_of (t : TsType) : option (option string) :=
  match t with
  | UNRESOLVED_UDT u => Some u
  | TsArray (UNRESOLVED_UDT u) => Some u
  | _ => None
  end.

Definition is_target (a : AttributeData.t) : bool :=
  match target_of (AttributeData.tsType a) with
  | Some _ => true
  | None => false
  end.

(** [u] is the name of a composite type or of an enumeration. *)
Definition known_name (enums : list EnumData.t) (types : list TypeData.t)
           (u : option string) : Prop :=
  exists n,
    u = Some n
    /\ (In n (map TypeData.name types) \/ In n (map EnumData.name enums)).

(** Every name the attribute asks for is known. *)
Definition attr_resolvable (enums : list EnumData.t)
           (types : list TypeData.t) (a : AttributeData.t) : Prop :=
  forall u, target_of (AttributeData.tsType a) = Some u ->
            known_name enums types u.

(** The shape the three inner loops of [resolveTypes] share: the
    attributes of one composite type, table or routine, read by [get],
    resolved in turn, and written back by [set]. *)
Definition inner_loop (enums : list EnumData.t) (types : list TypeData.t)
           {X : Type} (get : X -> list AttributeData.t)
           (set : list AttributeData.t -> X -> X)
           (x : X) (resolved : nat) : X * completion nat :=
  let '(attrs, c) :=
    Inspector.for_of (Inspector.resolveAttribute enums types) (get x)
                     resolved in
  (set attrs x, c).

(** Does the character [c] occur in [s]? *)
Fixpoint has_char (c : ascii) (s : string) : bool :=
  match s with
  | EmptyString => false
  | String d rest => (d =? c)%char || has_char c rest
  end.

(** Every underscore of [s] is followed by a word character that is not
    an underscore: the underscores of a snake-case name. *)
Fixpoint underscores_lead_words (s : string) : bool :=
  match s with
  | EmptyString => true
  | String c rest =>
      if (c =? "_")%char then
        match rest with
        | String w rest' =>
            is_word w && negb (w =? "_")%char && underscores_lead_words rest'
        | EmptyString => false
        end
      else underscores_lead_words rest
  end.

(** Does a dash followed by a letter of [a] to [z] occur in [s]? *)
Fixpoint has_dash_lower (s : string) : bool :=
  match s with
  | EmptyString => false
  | String c rest =>
      match rest with
      | String l _ => ((c =? "-")%char && is_lower l) || has_dash_lower rest
      | EmptyString => false
      end
  end.

(** The field [discoverEnums] makes of a row. *)
Definition field_of (row : Inspector.EnumRow.t) : FieldData.t :=
  FieldData.mk (Inspector.EnumRow.name row) (Inspector.EnumRow.order row).

(** The rows of the enum named [n]. *)
Definition rows_of (n : string) (rows : list Inspector.EnumRow.t)
  : list Inspector.EnumRow.t :=
  filter (fun r => Inspector.EnumRow.enum_name r =? n) rows.

(** What holds of the enums gathered from the rows read so far. *)
Definition grouped (enums : list EnumData.t) (done : list Inspector.EnumRow.t) : Prop :=
  NoDup (map EnumData.name enums)
  /\ (forall r, In r done ->
                In (Inspector.EnumRow.enum_name r) (map EnumData.name enums))
  /\ (forall e, In e enums ->
                EnumData.fields e =
                map field_of (rows_of (EnumData.name e) done)
                /\ In (EnumData.name e) (map Inspector.EnumRow.enum_name done)
                /\ Inspector.snakeToPascal (EnumData.name e) =
                   Normal (EnumData.tsName e)).

(** *** Vocabulary of the builders and the renderer *)

(** The operator of a condition is one of its arity. *)
Definition well_formed_condition (c : Condition) : Prop :=
  match c with
  | UnaryCondition _ operator => In operator Client.unaryOperators
  | BinaryCondition _ operator _ => In operator Client.binaryOperators
  end.

Definition condition_column (c : Condition) : string :=
  match c with
  | UnaryCondition column _ => column
  | BinaryCondition column _ _ => column
  end.

(** The conditions of a query, none when the field is absent. *)
Definition conditions_of {Q : Type} `{Client.HasConditions Q} (q : Q)
  : list Condition :=
  match Client.get_conditions q with
  | Some conditions => conditions
  | None => []
  end.

(** Reading [conditions] after writing it gives what was written. *)
Class LawfulConditions (Q : Type) (H : Client.HasConditions Q) : Prop :=
  { get_set_conditions :
      forall cs (q : Q),
        Client.get_conditions (Client.set_conditions cs q) = cs }.

#[global] Instance SelectQuery_lawful :
  LawfulConditions Client.SelectQuery_conditions :=
  { get_set_conditions := fun _ _ => eq_refl }.

#[global] Instance UpdateCommand_lawful :
  LawfulConditions Client.UpdateCommand_conditions :=
  { get_set_conditions := fun _ _ => eq_refl }.

#[global] Instance DeleteCommand_lawful :
  LawfulConditions Client.DeleteCommand_conditions :=
  { get_set_conditions := fun _ _ => eq_refl }.

(** The condition a call of [where] appends. *)
Definition appended_condition (column : string) (operator value : JsValue)
  : Condition :=
  if negb (Client.is_undefined value) && Client.isBinaryOperator operator
  then BinaryCondition column (Client.operator_text operator) value
  else if Client.isUnaryOperator operator
       then UnaryCondition column (Client.operator_text operator)
       else BinaryCondition column "=" operator.

(** The text [select] puts after the boolean on the line of the
    conditions. *)
Definition conditions_text (format : IFormatting.t) (q : SelectQuery.t)
  : string :=
  match SelectQuery.conditions q with
  | Some conditions =>
      join " and " (map (SqlGenerator.generateCondition format) conditions)
  | None => ""
  end.

Definition with_limit (n : option Z) (q : SelectQuery.t) : SelectQuery.t :=
  SelectQuery.mk (SelectQuery.table q) n (SelectQuery.offset q)
                 (SelectQuery.conditions q) (SelectQuery.selected q)
                 (SelectQuery.orderBy q).

Definition with_offset (n : option Z) (q : SelectQuery.t) : SelectQuery.t :=
  SelectQuery.mk (SelectQuery.table q) (SelectQuery.limit q) n
                 (SelectQuery.conditions q) (SelectQuery.selected q)
                 (SelectQuery.orderBy q).

(** The select builders a caller can reach for a table of a client: the
    one [select] returns, and those the chain methods return. *)
Inductive built (R : Type) (transport : ApiTransport.t R)
          (table : TableData.t) : Client.SelectBuilder.t R -> Prop :=
| built_new columns :
    built transport table (Client.SelectBuilder.new transport table columns)
| built_limit n b :
    built transport table b ->
    built transport table (Client.SelectBuilder.limit n b)
| built_offset n b :
    built transport table b ->
    built transport table (Client.SelectBuilder.offset n b)
| built_where column operator value b :
    built transport table b ->
    built transport table
          (Client.SelectBuilder.where_ column operator value b)
| built_orderBy columns direction b b' :
    built transport table b ->
    Client.SelectBuilder.orderBy columns direction b = Normal b' ->
    built transport table b'.

(** The names [ApiClient.create] defines, in order. *)
Definition client_names (schema : SchemaData.t) : list string :=
  (map TableData.name (SchemaData.tables schema)
   ++ map FuncData.name (SchemaData.functions schema))%list.

Import Inspector.

(** Case analysis on every test of an [if] chain, first test first. *)
Ltac case_conditions :=
  repeat match goal with
         | |- context [if ?c then _ else _] => destruct c
         end.

Lemma deduceType_unfold (type : string) (udt : option string)
      (udts : UdtOptions.t) :
  deduceType type udt udts =
  if (type =? "boolean") || is_lit udt "boolean" then Some TsBoolean
  else if isNumberType (Some type) || isNumberType udt
          || includes (UdtOptions.number udts) type
          || truthy_and_includes (UdtOptions.number udts) udt
  then Some TsNumber
  else if isStringType (Some type) || isStringType udt
          || includes (UdtOptions.string udts) type
          || truthy_and_includes (UdtOptions.string udts) udt
  then Some TsString
  else if isKnownDateType (Some type) || isKnownDateType udt then Some TsDate
  else if type =? "USER-DEFINED" then Some (UNRESOLVED_UDT udt)
  else if type =? "ARRAY" then
    match udt with
    | Some u =>
        Some (TsArray (match deduceType u None udts with
                       | Some arrayType => arrayType
                       | None => UNRESOLVED_UDT (Some u)
                       end))
    | None => None
    end
  else None.
Proof.
  rewrite deduceType_equation_1.
  repeat match goal with
         | |- context [if ?c then _ else _] =>
             destruct c; cbn [deduceType_unfold_clause_1
               deduceType_unfold_clause_1_clause_2
               deduceType_unfold_clause_1_clause_2_clause_2
               deduceType_unfold_clause_1_clause_2_clause_2_clause_2
               deduceType_unfold_clause_1_clause_2_clause_2_clause_2_clause_2
               deduceType_unfold_clause_1_clause_2_clause_2_clause_2_clause_2_clause_2];
             try reflexivity
         end.
  all: destruct udt; reflexivity.
Qed.

(** *** Phase 2 on one type *)

Section ResolveTypeFacts.
Variable enums : list EnumData.t.
Variable types : list TypeData.t.

Lemma resolveType_marker_free (t : TsType) :
  has_marker t = false -> resolveType enums types t = (t, Normal 0%nat).
Proof.
  destruct t as [ | | | | e | i | inner | u]; simpl; try reflexivity.
  - destruct inner; simpl; try reflexivity; discriminate.
  - discriminate.
Qed.

Lemma resolveType_array_udt (u : option string) :
  resolveType enums types (TsArray (UNRESOLVED_UDT u)) =
  match resolveType enums types (UNRESOLVED_UDT u) with
  | (element, Normal _) => (TsArray element, Normal 1%nat)
  | (_, Throw message) => (TsArray (UNRESOLVED_UDT u), Throw message)
  end.
Proof. reflexivity. Qed.

Lemma resolveType_udt_result (u : option string) (t' : TsType) (n : nat) :
  resolveType enums types (UNRESOLVED_UDT u) = (t', Normal n) ->
  has_marker t' = false /\ n = 1%nat.
Proof.
  simpl.
  destruct (js_find _ types); [intros [= <- <-]; auto|].
  destruct (js_find _ enums); [intros [= <- <-]; auto|].
  discriminate.
Qed.

Lemma resolveType_shaped (t t' : TsType) (n : nat) :
  phase1_shaped t = true ->
  resolveType enums types t = (t', Normal n) ->
  has_marker t' = false.
Proof.
  intros Hshape Hres.
  destruct t as [ | | | | e | i | inner | u].
  1-6: simpl in Hres; injection Hres as <- _; reflexivity.
  - destruct inner as [ | | | | e | i | inner | u].
    1-7: simpl in Hres; injection Hres as <- _; simpl in *;
         first [reflexivity | now apply negb_true_iff in Hshape].
    rewrite resolveType_array_udt in Hres.
    destruct (resolveType enums types (UNRESOLVED_UDT u)) as [el [k|m]] eqn:Hel;
      [|discriminate].
    injection Hres as <- _. simpl.
    now apply resolveType_udt_result in Hel.
  - now apply resolveType_udt_result in Hres.
Qed.

(** A call that throws leaves the type as it was. *)
Lemma resolveType_throw_unchanged (t t' : TsType) (message : string) :
  resolveType enums types t = (t', Throw message) -> t' = t.
Proof.
  destruct t as [ | | | | e | i | inner | u].
  1-6: discriminate.
  - destruct inner as [ | | | | e | i | inner | u].
    1-7: discriminate.
    rewrite resolveType_array_udt.
    destruct (resolveType enums types (UNRESOLVED_UDT u)) as [el [k|m]];
      [discriminate|].
    now intros [= <- _].
  - simpl.
    destruct (js_find _ types); [discriminate|].
    destruct (js_find _ enums); [discriminate|].
    now intros [= <- _].
Qed.

Lemma resolveAttribute_frame (a : AttributeData.t) (resolved : nat) :
  attribute_frame (fst (resolveAttribute enums types a resolved)) =
  attribute_frame a.
Proof.
  unfold resolveAttribute.
  destruct (resolveType enums types (AttributeData.tsType a)) as [ty [n|m]];
    reflexivity.
Qed.

Lemma resolveAttribute_marker_free (a : AttributeData.t) (resolved : nat) :
  has_marker (AttributeData.tsType a) = false ->
  resolveAttribute enums types a resolved = (a, Normal resolved).
Proof.
  intros H. unfold resolveAttribute.
  rewrite (resolveType_marker_free _ H).
  destruct a; simpl. now rewrite Nat.add_0_r.
Qed.

Lemma resolveAttribute_shaped (a a' : AttributeData.t) (r r' : nat) :
  phase1_shaped (AttributeData.tsType a) = true ->
  resolveAttribute enums types a r = (a', Normal r') ->
  has_marker (AttributeData.tsType a') = false.
Proof.
  intros Hshape. unfold resolveAttribute.
  destruct (resolveType enums types (AttributeData.tsType a))
    as [ty [n|m]] eqn:Hres; [|discriminate].
  intros [= <- _]. simpl. eapply resolveType_shaped; eassumption.
Qed.

End ResolveTypeFacts.

(** *** The loops *)

Section ForOf.
Context {X : Type}.
Variable body : X -> nat -> X * completion nat.

Lemma for_of_unchanged (P : X -> Prop) :
  (forall x r, P x -> body x r = (x, Normal r)) ->
  forall xs r, Forall P xs -> for_of body xs r = (xs, Normal r).
Proof.
  intros Hbody xs r Hall. revert r.
  induction Hall as [|x xs Hx _ IH]; intros r; simpl; [reflexivity|].
  now rewrite (Hbody x r Hx), IH.
Qed.

Lemma for_of_normal (P Q : X -> Prop) :
  (forall x r x' r', P x -> body x r = (x', Normal r') -> Q x') ->
  forall xs r xs' r',
    Forall P xs -> for_of body xs r = (xs', Normal r') -> Forall Q xs'.
Proof.
  intros Hbody xs. induction xs as [|x xs IH]; intros r xs' r' Hall; simpl.
  - now intros [= <- _].
  - inversion Hall as [|? ? Hx Hxs]; subst.
    destruct (body x r) as [x1 [r1|m]] eqn:Hb; [|discriminate].
    destruct (for_of body xs r1) as [rest c] eqn:Hrest.
    intros [= <- ->]. constructor; eauto.
Qed.

Lemma for_of_frame {F : Type} (frame : X -> F) :
  (forall x r, frame (fst (body x r)) = frame x) ->
  forall xs r, map frame (fst (for_of body xs r)) = map frame xs.
Proof.
  intros Hbody xs. induction xs as [|x xs IH]; intros r; simpl; [reflexivity|].
  specialize (Hbody x r).
  destruct (body x r) as [x1 [r1|m]]; simpl in *.
  - specialize (IH r1). destruct (for_of body xs r1) as [rest c]; simpl in *.
    now rewrite Hbody, IH.
  - now rewrite Hbody.
Qed.

End ForOf.

(** *** The pass over a schema *)

Section PassFacts.
Variable enums : list EnumData.t.
Variable types : list TypeData.t.

Lemma resolve_in_type_unchanged (type : TypeData.t) (r : nat) :
  Forall attr_marker_free (TypeData.attributes type) ->
  resolve_in_type enums types type r = (type, Normal r).
Proof.
  intros H. unfold resolve_in_type.
  rewrite for_of_unchanged with (P := attr_marker_free); auto.
  - now destruct type.
  - intros x k Hx. now apply resolveAttribute_marker_free.
Qed.

Lemma resolve_in_table_unchanged (table : TableData.t) (r : nat) :
  Forall attr_marker_free (TableData.columns table) ->
  resolve_in_table enums types table r = (table, Normal r).
Proof.
  intros H. unfold resolve_in_table.
  rewrite for_of_unchanged with (P := attr_marker_free); auto.
  - now destruct table.
  - intros x k Hx. now apply resolveAttribute_marker_free.
Qed.

Lemma resolve_in_func_unchanged (func : FuncData.t) (r : nat) :
  Forall attr_marker_free (FuncData.parameters func) ->
  resolve_in_func enums types func r = (func, Normal r).
Proof.
  intros H. unfold resolve_in_func.
  rewrite for_of_unchanged with (P := attr_marker_free); auto.
  - now destruct func.
  - intros x k Hx. now apply resolveAttribute_marker_free.
Qed.

Lemma resolve_in_type_normal (type type' : TypeData.t) (r r' : nat) :
  Forall attr_shaped (TypeData.attributes type) ->
  resolve_in_type enums types type r = (type', Normal r') ->
  Forall attr_marker_free (TypeData.attributes type').
Proof.
  intros H. unfold resolve_in_type.
  destruct (for_of _ (TypeData.attributes type) r) as [attrs c] eqn:Hloop.
  intros [= <- ->]. simpl.
  eapply for_of_normal; [|exact H|exact Hloop].
  intros x k x' k' Hx Hb. eapply resolveAttribute_shaped; eassumption.
Qed.

Lemma resolve_in_table_normal (table table' : TableData.t) (r r' : nat) :
  Forall attr_shaped (TableData.columns table) ->
  resolve_in_table enums types table r = (table', Normal r') ->
  Forall attr_marker_free (TableData.columns table').
Proof.
  intros H. unfold resolve_in_table.
  destruct (for_of _ (TableData.columns table) r) as [attrs c] eqn:Hloop.
  intros [= <- ->]. simpl.
  eapply for_of_normal; [|exact H|exact Hloop].
  intros x k x' k' Hx Hb. eapply resolveAttribute_shaped; eassumption.
Qed.

Lemma resolve_in_func_normal (func func' : FuncData.t) (r r' : nat) :
  Forall attr_shaped (FuncData.parameters func) ->
  resolve_in_func enums types func r = (func', Normal r') ->
  Forall attr_marker_free (FuncData.parameters func').
Proof.
  intros H. unfold resolve_in_func.
  destruct (for_of _ (FuncData.parameters func) r) as [attrs c] eqn:Hloop.
  intros [= <- ->]. simpl.
  eapply for_of_normal; [|exact H|exact Hloop].
  intros x k x' k' Hx Hb. eapply resolveAttribute_shaped; eassumption.
Qed.

Lemma resolve_in_type_frame (type : TypeData.t) (r : nat) :
  type_frame (fst (resolve_in_type enums types type r)) = type_frame type.
Proof.
  unfold resolve_in_type.
  pose proof (for_of_frame
                (resolveAttribute enums types)
                attribute_frame
                (resolveAttribute_frame enums types) (TypeData.attributes type) r) as H.
  destruct (for_of _ (TypeData.attributes type) r) as [attrs c].
  unfold type_frame. simpl in *. now rewrite H.
Qed.

Lemma resolve_in_table_frame (table : TableData.t) (r : nat) :
  table_frame (fst (resolve_in_table enums types table r)) = table_frame table.
Proof.
  unfold resolve_in_table.
  pose proof (for_of_frame
                (resolveAttribute enums types)
                attribute_frame
                (resolveAttribute_frame enums types) (TableData.columns table) r) as H.
  destruct (for_of _ (TableData.columns table) r) as [attrs c].
  unfold table_frame. simpl in *. now rewrite H.
Qed.

Lemma resolve_in_func_frame (func : FuncData.t) (r : nat) :
  func_frame (fst (resolve_in_func enums types func r)) = func_frame func.
Proof.
  unfold resolve_in_func.
  pose proof (for_of_frame
                (resolveAttribute enums types)
                attribute_frame
                (resolveAttribute_frame enums types) (FuncData.parameters func) r) as H.
  destruct (for_of _ (FuncData.parameters func) r) as [attrs c].
  unfold func_frame. simpl in *. now rewrite H.
Qed.

End PassFacts.

Lemma schema_attributes_split (P : AttributeData.t -> Prop)
      (s : SchemaData.t) :
  Forall P (schema_attributes s) <->
  Forall (fun t => Forall P (TypeData.attributes t)) (SchemaData.types s)
  /\ Forall (fun t => Forall P (TableData.columns t)) (SchemaData.tables s)
  /\ Forall (fun f => Forall P (FuncData.parameters f))
            (SchemaData.functions s).
Proof.
  unfold schema_attributes.
  now rewrite !Forall_app, !Forall_flat_map.
Qed.

(** C7.  A schema in which no type carries the marker, in an attribute, a
    column, a parameter or a return type, at any depth of array nesting, is
    left as it is by [resolveTypes], which returns 0. *)
Theorem resolveTypes_resolved_schema_noop (s : SchemaData.t) :
  Forall (fun t => has_marker t = false) (schema_types s) ->
  resolveTypes s = (s, Normal 0%nat).
Proof.
  unfold schema_types. rewrite Forall_app, Forall_map.
  intros [Hattrs _].
  apply (schema_attributes_split attr_marker_free) in Hattrs.
  destruct Hattrs as (Htypes & Htables & Hfuncs).
  unfold resolveTypes.
  rewrite for_of_unchanged
    with (P := fun t => Forall attr_marker_free (TypeData.attributes t));
    [|intros; now apply resolve_in_type_unchanged|exact Htypes].
  rewrite for_of_unchanged
    with (P := fun t => Forall attr_marker_free (TableData.columns t));
    [|intros; now apply resolve_in_table_unchanged|exact Htables].
  rewrite for_of_unchanged
    with (P := fun f => Forall attr_marker_free (FuncData.parameters f));
    [|intros; now apply resolve_in_func_unchanged|exact Hfuncs].
  now destruct s.
Qed.

Lemma resolveTypes_resolved_schema_noop_witness :
  resolveTypes (Examples.people (TsArray (TsArray (TsEnum "Mood")))) =
  (Examples.people (TsArray (TsArray (TsEnum "Mood"))), Normal 0%nat).
Proof.
  apply resolveTypes_resolved_schema_noop.
  repeat constructor.
Defined.

(** C9.  [resolveTypes] writes the [tsType] of attributes and nothing
    else: the enumerations, the names and display names of the composite
    types and tables, the names and return types of the routines, and the
    name, ordinal and nullability of every attribute, in their order, are
    after the call (whether it returns or throws) what they were before. *)
Theorem resolveTypes_frame (s : SchemaData.t) :
  schema_frame (fst (resolveTypes s)) = schema_frame s.
Proof.
  unfold resolveTypes.
  pose proof (for_of_frame
                (resolve_in_type (SchemaData.enums s) (SchemaData.types s))
                type_frame
                (resolve_in_type_frame _ _) (SchemaData.types s) 0%nat) as Ht.
  destruct (for_of _ (SchemaData.types s) 0%nat) as [types' [r1|m]];
    simpl in Ht; [|unfold schema_frame; simpl; now rewrite Ht].
  pose proof (for_of_frame
                (resolve_in_table (SchemaData.enums s) (SchemaData.types s))
                table_frame
                (resolve_in_table_frame _ _) (SchemaData.tables s) r1) as Hb.
  destruct (for_of _ (SchemaData.tables s) r1) as [tables' [r2|m]];
    simpl in Hb; [|unfold schema_frame; simpl; now rewrite Ht, Hb].
  pose proof (for_of_frame
                (resolve_in_func (SchemaData.enums s) (SchemaData.types s))
                func_frame
                (resolve_in_func_frame _ _) (SchemaData.functions s) r2) as Hf.
  destruct (for_of _ (SchemaData.functions s) r2) as [functions' c];
    simpl in Hf.
  unfold schema_frame; simpl. now rewrite Ht, Hb, Hf.
Qed.

(** Completeness on what the pass visits.  When every attribute, column
    and parameter type carries the marker in one of the shapes phase 1
    produces (on its own or directly inside one array) or not at all, and
    [resolveTypes] returns normally, no attribute, column or parameter type
    of the resulting schema carries the marker at any depth. *)
Theorem resolveTypes_complete_on_shaped (s s' : SchemaData.t) (n : nat) :
  Forall attr_shaped (schema_attributes s) ->
  resolveTypes s = (s', Normal n) ->
  Forall attr_marker_free (schema_attributes s').
Proof.
  intros Hshaped.
  apply schema_attributes_split in Hshaped.
  destruct Hshaped as (Htypes & Htables & Hfuncs).
  unfold resolveTypes.
  destruct (for_of _ (SchemaData.types s) 0%nat) as [types' [r1|m]] eqn:Ht;
    [|discriminate].
  destruct (for_of _ (SchemaData.tables s) r1) as [tables' [r2|m]] eqn:Hb;
    [|discriminate].
  destruct (for_of _ (SchemaData.functions s) r2) as [functions' c] eqn:Hf.
  intros [= <- ->].
  apply schema_attributes_split; simpl. repeat split.
  - refine (@for_of_normal _ _ _ _ _ _ _ _ _ Htypes Ht).
    intros; eapply resolve_in_type_normal; eassumption.
  - refine (@for_of_normal _ _ _ _ _ _ _ _ _ Htables Hb).
    intros; eapply resolve_in_table_normal; eassumption.
  - refine (@for_of_normal _ _ _ _ _ _ _ _ _ Hfuncs Hf).
    intros; eapply resolve_in_func_normal; eassumption.
Qed.

Lemma resolveTypes_complete_on_shaped_witness :
  Forall attr_marker_free
         (schema_attributes
            (Examples.people (TsArray (TsEnum "Mood")))).
Proof.
  apply (@resolveTypes_complete_on_shaped
           (Examples.people (TsArray (UNRESOLVED_UDT (Some "mood"))))
           (Examples.people (TsArray (TsEnum "Mood"))) 1%nat).
  - repeat constructor.
  - reflexivity.
Defined.

(** A marker two arrays deep, which phase 1 never builds, is not looked
    at: the pass returns normally, with 0, and the marker is still there. *)
Lemma resolveTypes_leaves_nested_marker :
  resolveTypes
    (Examples.people (TsArray (TsArray (UNRESOLVED_UDT (Some "ghost"))))) =
  (Examples.people (TsArray (TsArray (UNRESOLVED_UDT (Some "ghost")))),
   Normal 0%nat)
  /\ has_marker (TsArray (TsArray (UNRESOLVED_UDT (Some "ghost")))) = true.
Proof. split; reflexivity. Qed.

Lemma resolve_in_func_returnType
      (enums : list EnumData.t) (types : list TypeData.t)
      (func : FuncData.t) (r : nat) :
  FuncData.returnType (fst (resolve_in_func enums types func r)) =
  FuncData.returnType func.
Proof.
  unfold resolve_in_func.
  now destruct (for_of _ (FuncData.parameters func) r).
Qed.

(** C2.  The pass never looks at the return type of a routine: the return
    types of the schema are after the call what they were before, for every
    schema.  The routine [discoverFunctions] makes of a row typed
    USER-DEFINED has the marker as its return type; on the schema that holds
    this routine beside the enum it names, [resolveTypes] returns normally,
    with 0, and the marker is still in the schema, although [resolveType]
    resolves that very type when it is handed it. *)
Theorem resolveTypes_skips_return_types :
  (forall s : SchemaData.t,
      map FuncData.returnType (SchemaData.functions (fst (resolveTypes s))) =
      map FuncData.returnType (SchemaData.functions s))
  /\ makeFunction Examples.no_udts Examples.current_mood_row [] =
     Normal Examples.current_mood
  /\ resolveTypes Examples.mood_routine =
     (Examples.mood_routine, Normal 0%nat)
  /\ has_marker (FuncData.returnType Examples.current_mood) = true
  /\ In (FuncData.returnType Examples.current_mood)
        (schema_types Examples.mood_routine)
  /\ resolveType (SchemaData.enums Examples.mood_routine)
                 (SchemaData.types Examples.mood_routine)
                 (FuncData.returnType Examples.current_mood) =
     (TsEnum "Mood", Normal 1%nat).
Proof.
  split.
  - intros s. unfold resolveTypes.
    destruct (for_of _ (SchemaData.types s) 0%nat) as [types' [r1|m]];
      [|reflexivity].
    destruct (for_of _ (SchemaData.tables s) r1) as [tables' [r2|m]];
      [|reflexivity].
    pose proof (for_of_frame
                  (resolve_in_func (SchemaData.enums s) (SchemaData.types s))
                  FuncData.returnType
                  (resolve_in_func_returnType _ _)
                  (SchemaData.functions s) r2) as Hf.
    now destruct (for_of _ (SchemaData.functions s) r2) as [functions' c].
  - repeat split; try reflexivity. simpl. auto.
Qed.

(** *** Lookups by name *)

Lemma includes_In (xs : list string) (s : string) :
  includes xs s = true <-> In s xs.
Proof.
  unfold includes. rewrite existsb_exists. split.
  - intros (x & Hin & Heq). apply String.eqb_eq in Heq. now subst.
  - intros Hin. exists s. split; [exact Hin|apply String.eqb_refl].
Qed.

Lemma includes_not_In (xs : list string) (s : string) :
  includes xs s = false <-> ~ In s xs.
Proof.
  rewrite <- includes_In. destruct (includes xs s); split; intros H;
    try reflexivity; try discriminate; try (intros [=]).
  now elim H.
Qed.

Section Lookup.
Context {A : Type}.
Variable name_of : A -> string.

Lemma find_none_named (n : string) (xs : list A) :
  none_named name_of n xs ->
  js_find (fun y => name_is (Some n) (name_of y)) xs = None.
Proof.
  unfold js_find. induction 1 as [|y ys Hy _ IH]; simpl; [reflexivity|].
  apply String.eqb_neq in Hy. now rewrite Hy.
Qed.

Lemma find_first_named (n : string) (xs : list A) (x : A) :
  first_named name_of n xs x ->
  js_find (fun y => name_is (Some n) (name_of y)) xs = Some x.
Proof.
  intros (before & after & -> & Hx & Hbefore). unfold js_find.
  induction Hbefore as [|y ys Hy _ IH]; simpl.
  - apply String.eqb_eq in Hx. now rewrite Hx.
  - apply String.eqb_neq in Hy. now rewrite Hy.
Qed.

End Lookup.

Lemma append_assoc (a b c : string) : (a ++ b) ++ c = a ++ (b ++ c).
Proof. induction a as [|x a IH]; simpl; [reflexivity|now rewrite IH]. Qed.

Lemma occurs_in_cant_resolve (n : string) :
  occurs_in n (cant_resolve (Some n)).
Proof.
  exists ("Can't resolve type " ++ dquote), (dquote ++ ".").
  unfold cant_resolve; simpl show_nullable.
  now rewrite !append_assoc.
Qed.

(** C6.  For an attribute whose type is the marker for [n]: when a
    composite type is named [n], the call returns 1 and the attribute, with
    its name, ordinal and nullability, has as its type the reference to the
    first such composite type, whatever the enumerations are; when no
    composite type but an enumeration is named [n], it has the reference to
    the first such enumeration; when neither collection has the name, the
    call throws, the attribute is left as it was, and the message contains
    [n]. *)
Theorem resolveAttribute_unresolved_udt
        (enums : list EnumData.t) (types : list TypeData.t)
        (attr : AttributeData.t) (n : string) (resolved : nat) :
  AttributeData.tsType attr = UNRESOLVED_UDT (Some n) ->
  (forall type,
      first_named TypeData.name n types type ->
      resolveAttribute enums types attr resolved =
      (AttributeData.mk (AttributeData.name attr) (AttributeData.order attr)
                        (AttributeData.nullable attr)
                        (TsInterface (TypeData.tsName type)),
       Normal (resolved + 1)%nat))
  /\ (forall enu,
         none_named TypeData.name n types ->
         first_named EnumData.name n enums enu ->
         resolveAttribute enums types attr resolved =
         (AttributeData.mk (AttributeData.name attr)
                           (AttributeData.order attr)
                           (AttributeData.nullable attr)
                           (TsEnum (EnumData.tsName enu)),
          Normal (resolved + 1)%nat))
  /\ (none_named TypeData.name n types ->
      none_named EnumData.name n enums ->
      exists message,
        resolveAttribute enums types attr resolved = (attr, Throw message)
        /\ AttributeData.tsType attr = UNRESOLVED_UDT (Some n)
        /\ message = cant_resolve (Some n)
        /\ occurs_in n message).
Proof.
  intros Hty. unfold resolveAttribute. rewrite Hty. cbn [resolveType].
  repeat split.
  - intros type Hfirst. now rewrite (find_first_named Hfirst).
  - intros enu Hnone Hfirst.
    now rewrite (find_none_named Hnone), (find_first_named Hfirst).
  - intros Hnone1 Hnone2.
    rewrite (find_none_named Hnone1), (find_none_named Hnone2).
    exists (cant_resolve (Some n)). repeat split.
    + rewrite <- Hty. now destruct attr.
    + apply occurs_in_cant_resolve.
Qed.

Lemma resolveAttribute_unresolved_udt_witness :
  resolveAttribute [Examples.mood] [Examples.address]
                   (Examples.attribute_of (UNRESOLVED_UDT (Some "address")))
                   0%nat =
  (Examples.attribute_of (TsInterface "Address"), Normal 1%nat)
  /\ resolveAttribute [Examples.mood] [Examples.address]
                      (Examples.attribute_of (UNRESOLVED_UDT (Some "mood")))
                      0%nat =
     (Examples.attribute_of (TsEnum "Mood"), Normal 1%nat)
  /\ exists message,
      resolveAttribute [Examples.mood] [Examples.address]
                       (Examples.attribute_of (UNRESOLVED_UDT (Some "ghost")))
                       0%nat =
      (Examples.attribute_of (UNRESOLVED_UDT (Some "ghost")), Throw message)
      /\ AttributeData.tsType
           (Examples.attribute_of (UNRESOLVED_UDT (Some "ghost"))) =
         UNRESOLVED_UDT (Some "ghost")
      /\ message = cant_resolve (Some "ghost")
      /\ occurs_in "ghost" message.
Proof.
  split; [|split].
  - apply (proj1 (resolveAttribute_unresolved_udt
                    [Examples.mood] [Examples.address]
                    (Examples.attribute_of (UNRESOLVED_UDT (Some "address")))
                    0%nat eq_refl) Examples.address).
    exists [], []. repeat split. constructor.
  - apply (proj1 (proj2 (resolveAttribute_unresolved_udt
                           [Examples.mood] [Examples.address]
                           (Examples.attribute_of
                              (UNRESOLVED_UDT (Some "mood")))
                           0%nat eq_refl)) Examples.mood).
    + repeat constructor; discriminate.
    + exists [], []. repeat split. constructor.
  - apply (proj2 (proj2 (resolveAttribute_unresolved_udt
                           [Examples.mood] [Examples.address]
                           (Examples.attribute_of
                              (UNRESOLVED_UDT (Some "ghost")))
                           0%nat eq_refl))).
    + repeat constructor; discriminate.
    + repeat constructor; discriminate.
Defined.

(** The lookups of [resolveType] read the names and display names of the
    composite types only: on two lists of composite types that agree on
    these, in order, the calls agree.  The pass writes no name and no
    display name, so looking names up in the list as it was when the pass
    started is looking them up in the list as it is during the pass. *)
Lemma resolveType_reads_names_only
      (enums : list EnumData.t) (types types' : list TypeData.t)
      (t : TsType) :
  map type_frame types' = map type_frame types ->
  resolveType enums types' t = resolveType enums types t.
Proof.
  intros Hframes.
  assert (forall u,
             option_map TypeData.tsName
               (js_find (fun y => name_is u (TypeData.name y)) types') =
             option_map TypeData.tsName
               (js_find (fun y => name_is u (TypeData.name y)) types))
    as Hfind.
  { intros u. revert types' Hframes. unfold js_find.
    induction types as [|y ys IH]; intros [|y' ys']; simpl;
      try discriminate; [reflexivity|].
    intros [= Hn Hts _ Hrest]. rewrite Hn.
    destruct (name_is u (TypeData.name y)); simpl; [now rewrite Hts|].
    now apply IH. }
  assert (forall u,
             resolveType enums types' (UNRESOLVED_UDT u) =
             resolveType enums types (UNRESOLVED_UDT u)) as Hudt.
  { intros u. cbn [resolveType]. specialize (Hfind u).
    destruct (js_find _ types') as [a|], (js_find _ types) as [b|];
      simpl in Hfind; try discriminate; [|reflexivity].
    now injection Hfind as ->. }
  destruct t as [ | | | | e | i | inner | u]; try reflexivity; [|apply Hudt].
  destruct inner as [ | | | | e | i | inner | u]; try reflexivity.
  rewrite !resolveType_array_udt. now rewrite Hudt.
Qed.

(** The missing reference of the specification's example, through the
    whole pass: the schema is left as it was and the message names
    [ghost]. *)
Example resolveTypes_ghost :
  resolveTypes (Examples.people (UNRESOLVED_UDT (Some "ghost"))) =
  (Examples.people (UNRESOLVED_UDT (Some "ghost")),
   Throw (cant_resolve (Some "ghost")))
  /\ cant_resolve (Some "ghost") =
     "Can't resolve type " ++ dquote ++ "ghost" ++ dquote ++ ".".
Proof. split; reflexivity. Qed.

(** *** Phase 1 *)

Lemma truthy_and_includes_false (xs : list string) (udt : option string) :
  (forall u, udt = Some u -> ~ In u xs) ->
  truthy_and_includes xs udt = false.
Proof.
  intros H. destruct udt as [u|]; [|reflexivity]. simpl.
  rewrite (proj2 (includes_not_In xs u) (H u eq_refl)).
  apply andb_false_r.
Qed.

Lemma truthy_and_includes_true (xs : list string) (u : string) :
  u <> "" -> In u xs -> truthy_and_includes xs (Some u) = true.
Proof.
  intros Hne Hin. simpl.
  apply String.eqb_neq in Hne. rewrite Hne.
  now rewrite (proj2 (includes_In xs u) Hin).
Qed.

(** With a [null] underlying name, phase 1 yields a scalar, the marker for
    [null], or nothing: never an array. *)
Lemma deduceType_null_udt (type : string) (udts : UdtOptions.t) :
  match deduceType type None udts with
  | Some (TsArray _) | Some (TsEnum _) | Some (TsInterface _)
  | Some (UNRESOLVED_UDT (Some _)) => False
  | _ => True
  end.
Proof.
  rewrite deduceType_unfold.
  case_conditions; exact I.
Qed.

(** Phase 1 never puts an array inside an array. *)
Lemma deduceType_never_nested (type : string) (udt : option string)
      (udts : UdtOptions.t) (t : TsType) :
  deduceType type udt udts <> Some (TsArray (TsArray t)).
Proof.
  rewrite deduceType_unfold.
  case_conditions; try discriminate.
  destruct udt as [u|]; [|discriminate].
  pose proof (deduceType_null_udt u udts) as H.
  destruct (deduceType u None udts) as [[ | | | | e | i | inner | o]|];
    try discriminate.
  exact (False_ind _ H).
Qed.

(** What phase 1 yields has the marker on its own, directly inside one
    array, or not at all. *)
Lemma deduceType_shaped (type : string) (udt : option string)
      (udts : UdtOptions.t) (t : TsType) :
  deduceType type udt udts = Some t -> phase1_shaped t = true.
Proof.
  rewrite deduceType_unfold.
  case_conditions; try (intros [= <-]; reflexivity); try discriminate.
  destruct udt as [u|]; [|discriminate].
  pose proof (deduceType_null_udt u udts) as H.
  destruct (deduceType u None udts) as [[ | | | | e | i | inner | o]|];
    intros [= <-]; try reflexivity; exact (False_ind _ H).
Qed.

(** C8, as the code has it.  When neither name is the boolean name or a
    built-in numeric name or on the number allow-list, and the raw name is on
    the string allow-list or the underlying name is a non-empty name on the
    string allow-list, phase 1 yields [string]. *)
Theorem deduceType_string_allow_list
        (type : string) (udt : option string) (udts : UdtOptions.t) :
  type <> "boolean" ->
  udt <> Some "boolean" ->
  ~ In type numberTypes ->
  (forall u, udt = Some u -> ~ In u numberTypes) ->
  ~ In type (UdtOptions.number udts) ->
  (forall u, udt = Some u -> ~ In u (UdtOptions.number udts)) ->
  In type (UdtOptions.string udts)
  \/ (exists u, udt = Some u /\ u <> "" /\ In u (UdtOptions.string udts)) ->
  deduceType type udt udts = Some TsString.
Proof.
  intros Hb1 Hb2 Hn1 Hn2 Hl1 Hl2 Hs.
  rewrite deduceType_unfold.
  assert ((type =? "boolean") || is_lit udt "boolean" = false) as ->.
  { apply orb_false_iff. split; [now apply String.eqb_neq|].
    destruct udt as [u|]; [|reflexivity]. simpl.
    apply String.eqb_neq. congruence. }
  assert (isNumberType (Some type) || isNumberType udt
          || includes (UdtOptions.number udts) type
          || truthy_and_includes (UdtOptions.number udts) udt = false) as ->.
  { unfold isNumberType.
    rewrite (truthy_and_includes_false _ Hn2),
            (truthy_and_includes_false _ Hl2).
    rewrite (proj2 (includes_not_In _ _) Hl1).
    rewrite truthy_and_includes_false; [reflexivity|].
    now intros u [= <-]. }
  assert (isStringType (Some type) || isStringType udt
          || includes (UdtOptions.string udts) type
          || truthy_and_includes (UdtOptions.string udts) udt = true) as ->.
  { destruct Hs as [Hin|(u & -> & Hne & Hin)].
    - rewrite (proj2 (includes_In _ _) Hin).
      now rewrite orb_true_r.
    - rewrite truthy_and_includes_true by assumption.
      now rewrite orb_true_r. }
  reflexivity.
Qed.

Lemma deduceType_string_allow_list_witness :
  deduceType "geometry" (Some "point") (UdtOptions.mk ["point"] ["ltree"]) =
  Some TsString.
Proof.
  apply deduceType_string_allow_list.
  - discriminate.
  - discriminate.
  - unfold numberTypes; simpl; intuition discriminate.
  - intros u [= <-]. unfold numberTypes; simpl; intuition discriminate.
  - simpl; intuition discriminate.
  - intros u [= <-]. simpl; intuition discriminate.
  - right. exists "point". repeat split; [discriminate|simpl; auto].
Defined.

(** C8, as stated, fails: the underlying name is tested for truthiness
    before it is looked up, so the empty name is never found on an
    allow-list.  Neither ["foo"] nor [""] is boolean, numeric or on the
    number allow-list, [""] is on the string allow-list, and phase 1 yields
    nothing. *)
Lemma deduceType_blank_udt_not_string :
  In "" (UdtOptions.string Examples.blank_string_udts)
  /\ ~ In "foo" ("boolean" :: numberTypes)
  /\ ~ In "" ("boolean" :: numberTypes)
  /\ ~ In "foo" (UdtOptions.number Examples.blank_string_udts)
  /\ ~ In "" (UdtOptions.number Examples.blank_string_udts)
  /\ deduceType "foo" (Some "") Examples.blank_string_udts = None.
Proof.
  repeat split; try (simpl; auto; fail);
    unfold numberTypes; simpl; intuition discriminate.
Qed.

Lemma scalar_name_false (udts : UdtOptions.t) (x : string) :
  scalar_name udts x = false ->
  (x =? "boolean") = false
  /\ includes numberTypes x = false
  /\ includes (UdtOptions.number udts) x = false
  /\ includes stringTypes x = false
  /\ includes (UdtOptions.string udts) x = false
  /\ includes knownDateTypes x = false.
Proof.
  unfold scalar_name. rewrite !orb_false_iff. tauto.
Qed.

(** An array whose element name phase 1 does not know is deduced as an
    array of the marker for that name. *)
Lemma deduceType_array_of_udt (udts : UdtOptions.t) (x : string) :
  scalar_name udts "ARRAY" = false ->
  scalar_name udts x = false ->
  x <> "USER-DEFINED" ->
  deduceType "ARRAY" (Some x) udts =
  Some (TsArray (UNRESOLVED_UDT (Some x))).
Proof.
  intros Harray Hx Hud.
  apply scalar_name_false in Harray.
  destruct Harray as (_ & _ & Han & _ & Has & _).
  apply scalar_name_false in Hx.
  destruct Hx as (Hxb & Hxn & Hxln & Hxs & Hxls & Hxd).
  apply String.eqb_neq in Hud.
  assert (forall xs, includes xs x = false ->
                     truthy_and_includes xs (Some x) = false) as Hfalse.
  { intros xs H. simpl. rewrite H. apply andb_false_r. }
  assert (deduceType x None udts = None) as Hinner.
  { rewrite deduceType_unfold. unfold isNumberType, isStringType,
      isKnownDateType.
    rewrite !Hfalse by assumption. simpl.
    rewrite Hxb, Hxln, Hxls, Hud. simpl.
    now destruct (x =? "ARRAY"). }
  rewrite deduceType_unfold. unfold isNumberType, isStringType,
    isKnownDateType.
  rewrite !(Hfalse _) by assumption.
  rewrite Han, Has. simpl. rewrite Hxb. simpl.
  now rewrite Hinner.
Qed.

(** C3, as the code has it.  For a row typed ARRAY whose element name [x]
    is not a name phase 1 maps to a scalar (nor is ARRAY, nor is [x] the
    USER-DEFINED tag), that names no composite type and names an
    enumeration: phase 1 followed by phase 2 yields one array of the
    reference to that enumeration. *)
Theorem array_of_enum_resolves
        (udts : UdtOptions.t) (enums : list EnumData.t)
        (types : list TypeData.t) (x : string) (enu : EnumData.t) :
  scalar_name udts "ARRAY" = false ->
  scalar_name udts x = false ->
  x <> "USER-DEFINED" ->
  none_named TypeData.name x types ->
  first_named EnumData.name x enums enu ->
  exists t,
    deduceType "ARRAY" (Some x) udts = Some t
    /\ resolveType enums types t =
       (TsArray (TsEnum (EnumData.tsName enu)), Normal 1%nat).
Proof.
  intros Harray Hx Hud Hnone Hfirst.
  exists (TsArray (UNRESOLVED_UDT (Some x))). split.
  - now apply deduceType_array_of_udt.
  - rewrite resolveType_array_udt. cbn [resolveType].
    now rewrite (find_none_named Hnone), (find_first_named Hfirst).
Qed.

Lemma array_of_enum_resolves_witness :
  exists t,
    deduceType "ARRAY" (Some "mood") Examples.no_udts = Some t
    /\ resolveType [Examples.mood] [Examples.address] t =
       (TsArray (TsEnum "Mood"), Normal 1%nat).
Proof.
  apply (@array_of_enum_resolves
           Examples.no_udts [Examples.mood] [Examples.address]
           "mood" Examples.mood).
  - reflexivity.
  - reflexivity.
  - discriminate.
  - repeat constructor; discriminate.
  - exists [], []. repeat split. constructor.
Defined.

(** C3, as stated, fails.  No row makes phase 1 yield an array inside an
    array; the row that marks the element as an array once more (a second
    leading underscore) is deduced as one array of the marker for [_mood],
    which phase 2 cannot resolve; and phase 2 returns 0 on an array of arrays
    of a marker, which it leaves as it finds it. *)
Lemma nested_enum_array_not_resolved :
  (forall type udt udts t,
      deduceType type udt udts <> Some (TsArray (TsArray t)))
  /\ makeGetAttribute Examples.no_udts
       (AttrRecord.mk "tags" 1 "ARRAY" (Some "__mood") true "people") =
     Normal (Examples.attribute_of
               (TsArray (UNRESOLVED_UDT (Some "_mood"))))
  /\ snd (resolveTypes
            (Examples.people (TsArray (UNRESOLVED_UDT (Some "_mood"))))) =
     Throw (cant_resolve (Some "_mood"))
  /\ resolveType [Examples.mood] [Examples.address]
       (TsArray (TsArray (UNRESOLVED_UDT (Some "mood")))) =
     (TsArray (TsArray (UNRESOLVED_UDT (Some "mood"))), Normal 0%nat).
Proof.
  split; [exact deduceType_never_nested|].
  repeat split; reflexivity.
Qed.

(** *** The renderer *)

(** C1.  The text [select] renders for
    [users.select(["id"]).where("status", "=", "active").limit(10)], whatever
    the formatting primitives are: the line of the conditions starts with the
    text of the boolean, [true], where the keyword was meant.  With
    primitives that quote names and values the text holds the condition and
    [limit 10], no [offset] and no [order by], and the word [where] nowhere. *)
Theorem select_active_users_text :
  (forall format : IFormatting.t,
      SqlGenerator.select format
        (Client.SelectBuilder.query Examples.active_users) =
      SqlGenerator.LF ++ "      select " ++ IFormatting.name format "id"
      ++ SqlGenerator.LF ++ "      from users"
      ++ SqlGenerator.LF ++ "      true "
      ++ IFormatting.name format "status" ++ " ="
      ++ IFormatting.value format (JsString "active")
      ++ SqlGenerator.LF ++ "      limit " ++ IFormatting.number format 10
      ++ SqlGenerator.LF ++ "      "
      ++ SqlGenerator.LF ++ "      "
      ++ SqlGenerator.LF ++ "    ")
  /\ (let text :=
        SqlGenerator.select Examples.marking
          (Client.SelectBuilder.query Examples.active_users) in
      str_includes "where" text = false
      /\ str_includes ("true " ++ dquote ++ "status" ++ dquote ++ " ='active'")
                      text = true
      /\ str_includes "limit 10" text = true
      /\ str_includes "offset" text = false
      /\ str_includes "order by" text = false).
Proof.
  split.
  - intros format. unfold SqlGenerator.select. simpl.
    rewrite !append_assoc. reflexivity.
  - repeat split; vm_compute; reflexivity.
Qed.

Lemma append_split5 (a b c d e t rest : string) :
  a ++ b ++ c ++ d ++ e ++ t ++ rest = (a ++ b ++ c ++ d ++ e) ++ t ++ rest.
Proof. now rewrite !append_assoc. Qed.

Lemma append_split66 (a b c d e f u v w x y z rest : string) :
  a ++ b ++ c ++ d ++ e ++ f ++ u ++ v ++ w ++ x ++ y ++ z ++ rest =
  (a ++ b ++ c ++ d ++ e ++ f) ++ (u ++ v ++ w ++ x ++ y ++ z) ++ rest.
Proof. now rewrite !append_assoc. Qed.

(** The line of the conditions, for every query: the text of the boolean
    [where] (or of [undefined]), a space, and the conditions joined by
    [and]. *)
Lemma select_conditions_line (format : IFormatting.t) (q : SelectQuery.t) :
  occurs_in
    (SqlGenerator.LF ++ "      "
     ++ SqlGenerator.show_where
          match SelectQuery.conditions q with
          | Some conditions => Some (0 <? List.length conditions)%nat
          | None => None
          end
     ++ " "
     ++ match SelectQuery.conditions q with
        | Some conditions =>
            join " and "
                 (map (SqlGenerator.generateCondition format) conditions)
        | None => ""
        end
     ++ SqlGenerator.LF)
    (SqlGenerator.select format q).
Proof.
  unfold occurs_in, SqlGenerator.select. do 2 eexists.
  apply append_split66.
Qed.

(** C5.  The table name reaches the text as it is: what stands before and
    after it in the text does not depend on it, whatever the formatting
    primitives do.  With primitives that forget their argument, the names
    of the selected and condition columns and the value are gone from the
    text, and the table name [users] is still there. *)
Theorem select_table_verbatim :
  (forall (format : IFormatting.t) (q : SelectQuery.t),
      exists before after,
        forall table : string,
          SqlGenerator.select format (SelectQuery.set_table table q) =
          before ++ table ++ after)
  /\ (let text :=
        SqlGenerator.select Examples.erasing
          (Client.SelectBuilder.query Examples.active_users) in
      str_includes "from users" text = true
      /\ str_includes "id" text = false
      /\ str_includes "status" text = false
      /\ str_includes "active" text = false).
Proof.
  split.
  - intros format q. do 2 eexists. intros table.
    unfold SqlGenerator.select.
    cbn [SelectQuery.set_table SelectQuery.table SelectQuery.limit
         SelectQuery.offset SelectQuery.conditions SelectQuery.selected
         SelectQuery.orderBy].
    apply append_split5.
  - repeat split; vm_compute; reflexivity.
Qed.

(** *** The builders *)

(** C4.  [execute] of a delete builder hands the command to the
    transport's [update]; the transport's [delete] is not called.  On the
    transport that answers with the name of the operation, the answer is
    [update], where the insert and update builders answer with their own
    operation. *)
Theorem delete_execute_calls_update :
  (forall (R : Type) (b : Client.DeleteBuilder.t R),
      Client.DeleteBuilder.execute b =
      ApiTransport.update
        (Client.DeleteBuilder.transport b)
        (DeleteCommand.as_UpdateCommand (Client.DeleteBuilder.command b)))
  /\ Client.DeleteBuilder.execute
       (Client.DeleteBuilder.where_ "id" (JsNumber 7) JsUndefined
          (Client.ClientTableApi.delete Examples.users_api)) = "update"
  /\ ApiTransport.delete Examples.recorder
       (Client.DeleteBuilder.command
          (Client.DeleteBuilder.where_ "id" (JsNumber 7) JsUndefined
             (Client.ClientTableApi.delete Examples.users_api))) = "delete"
  /\ Client.UpdateBuilder.execute
       (Client.ClientTableApi.update Examples.users_api) = "update"
  /\ Client.InsertBuilder.execute
       (Client.ClientTableApi.insert Examples.users_api) = "insert".
Proof. repeat split; reflexivity. Qed.

Lemma direction_is_true (direction : option string) (lit : string) :
  Client.direction_is direction lit = true -> direction = Some lit.
Proof.
  destruct direction as [d|]; simpl; [|discriminate].
  intros H. apply String.eqb_eq in H. now subst.
Qed.

(** C10.  [orderBy] called without a direction throws, and the message
    shows [undefined]; and whenever [orderBy] returns, the direction given
    was the text [asc] or the text [desc], and it is that text, not the
    default of [direction || "asc"], that the ordering holds. *)
Theorem orderBy_needs_explicit_direction
        (R : Type) (columns : list string) (b : Client.SelectBuilder.t R) :
  Client.SelectBuilder.orderBy columns None b =
  Throw ("Invalid orderBy direction: " ++ dquote ++ "undefined" ++ dquote
         ++ ".")
  /\ forall (direction : option string) (b' : Client.SelectBuilder.t R),
      Client.SelectBuilder.orderBy columns direction b = Normal b' ->
      exists d,
        direction = Some d
        /\ (d = "asc" \/ d = "desc")
        /\ SelectQuery.orderBy (Client.SelectBuilder.query b') =
           Some (OrderBy.mk columns d).
Proof.
  split; [reflexivity|].
  intros direction b'. unfold Client.SelectBuilder.orderBy.
  destruct (Client.direction_is direction "asc") eqn:Hasc.
  - apply direction_is_true in Hasc. subst direction. simpl.
    intros [= <-]. exists "asc". auto.
  - destruct (Client.direction_is direction "desc") eqn:Hdesc.
    + apply direction_is_true in Hdesc. subst direction. simpl.
      intros [= <-]. exists "desc". auto.
    + simpl. discriminate.
Qed.

Lemma orderBy_needs_explicit_direction_witness :
  exists d,
    Some "desc" = Some d
    /\ (d = "asc" \/ d = "desc")
    /\ SelectQuery.orderBy
         (Client.SelectBuilder.query
            (Client.SelectBuilder.set_query
               (SelectQuery.mk "users" (Some 10%Z) None
                  (Some [BinaryCondition "status" "=" (JsString "active")])
                  (Some ["id"]) (Some (OrderBy.mk ["id"] "desc")))
               Examples.active_users)) =
       Some (OrderBy.mk ["id"] d).
Proof.
  apply (proj2 (orderBy_needs_explicit_direction ["id"] Examples.active_users)
               (Some "desc")).
  reflexivity.
Defined.

(** ** Further properties of the resolution pass *)

Section ResolveTypeByTarget.
Variable enums : list EnumData.t.
Variable types : list TypeData.t.

Lemma find_type_known (u : option string) :
  match js_find (fun t => name_is u (TypeData.name t)) types with
  | Some t => u = Some (TypeData.name t) /\ In t types
  | None => forall n, u = Some n -> ~ In n (map TypeData.name types)
  end.
Proof.
  unfold js_find.
  destruct (find _ types) as [t|] eqn:Hfind.
  - apply find_some in Hfind. destruct Hfind as [Hin Hname].
    destruct u as [n|]; simpl in Hname; [|discriminate].
    apply String.eqb_eq in Hname. now subst.
  - intros n -> Hin. apply in_map_iff in Hin. destruct Hin as (t & Hn & Hin).
    pose proof (find_none _ _ Hfind t Hin) as Hfalse. simpl in Hfalse.
    rewrite Hn, String.eqb_refl in Hfalse. discriminate.
Qed.

Lemma find_enum_known (u : option string) :
  match js_find (fun e => name_is u (EnumData.name e)) enums with
  | Some e => u = Some (EnumData.name e) /\ In e enums
  | None => forall n, u = Some n -> ~ In n (map EnumData.name enums)
  end.
Proof.
  unfold js_find.
  destruct (find _ enums) as [t|] eqn:Hfind.
  - apply find_some in Hfind. destruct Hfind as [Hin Hname].
    destruct u as [n|]; simpl in Hname; [|discriminate].
    apply String.eqb_eq in Hname. now subst.
  - intros n -> Hin. apply in_map_iff in Hin. destruct Hin as (t & Hn & Hin).
    pose proof (find_none _ _ Hfind t Hin) as Hfalse. simpl in Hfalse.
    rewrite Hn, String.eqb_refl in Hfalse. discriminate.
Qed.

(** What [resolveType] does to a marker, by whether its name is known. *)
Lemma resolveType_udt_cases (u : option string) :
  (known_name enums types u
   /\ exists t', resolveType enums types (UNRESOLVED_UDT u) = (t', Normal 1%nat)
                 /\ has_marker t' = false /\ target_of t' = None
                 /\ target_of (TsArray t') = None)
  \/ (~ known_name enums types u
      /\ resolveType enums types (UNRESOLVED_UDT u) =
         (UNRESOLVED_UDT u, Throw (cant_resolve u))).
Proof.
  cbn [resolveType].
  pose proof (find_type_known u) as Ht. pose proof (find_enum_known u) as He.
  destruct (js_find _ types) as [t|].
  - left. destruct Ht as [-> Hin]. split.
    + exists (TypeData.name t). split; [reflexivity|left; now apply in_map].
    + eexists. repeat split.
  - destruct (js_find _ enums) as [e|].
    + left. destruct He as [-> Hin]. split.
      * exists (EnumData.name e). split; [reflexivity|right; now apply in_map].
      * eexists. repeat split.
    + right. split; [|reflexivity].
      intros (n & -> & [Hin|Hin]); [now apply (Ht n)|now apply (He n)].
Qed.

Lemma resolveType_cases (t : TsType) :
  match target_of t with
  | None => resolveType enums types t = (t, Normal 0%nat)
  | Some u =>
      (known_name enums types u
       /\ exists t', resolveType enums types t = (t', Normal 1%nat)
                     /\ target_of t' = None)
      \/ (~ known_name enums types u
          /\ resolveType enums types t = (t, Throw (cant_resolve u)))
  end.
Proof.
  destruct t as [ | | | | e | i | inner | u]; try reflexivity.
  - destruct inner as [ | | | | e | i | inner | u]; try reflexivity.
    cbn [target_of]. rewrite resolveType_array_udt.
    destruct (resolveType_udt_cases u) as [(Hk & t' & -> & _ & _ & Ht')
                                          |(Hk & ->)].
    + left. split; [exact Hk|]. now exists (TsArray t').
    + right. now split.
  - cbn [target_of].
    destruct (resolveType_udt_cases u) as [(Hk & t' & Hr & _ & Ht' & _)
                                          |(Hk & Hr)].
    + left. split; [exact Hk|]. now exists t'.
    + right. now split.
Qed.

Lemma resolveAttribute_cases (a : AttributeData.t) (r : nat) :
  if is_target a then
    (attr_resolvable enums types a
     /\ exists a', resolveAttribute enums types a r = (a', Normal (r + 1)%nat)
                   /\ is_target a' = false)
    \/ (~ attr_resolvable enums types a
        /\ exists message,
             resolveAttribute enums types a r = (a, Throw message))
  else resolveAttribute enums types a r = (a, Normal r).
Proof.
  unfold is_target, attr_resolvable, resolveAttribute.
  pose proof (resolveType_cases (AttributeData.tsType a)) as H.
  destruct (target_of (AttributeData.tsType a)) as [u|].
  - destruct H as [(Hk & t' & -> & Ht')|(Hk & ->)].
    + left. split; [now intros ? [= <-]|].
      eexists. split; [reflexivity|]. simpl. now rewrite Ht'.
    + right. split; [intros Hall; apply Hk; now apply Hall|].
      exists (cant_resolve u). now destruct a.
  - rewrite H. destruct a; simpl. now rewrite Nat.add_0_r.
Qed.

End ResolveTypeByTarget.

(** *** The loops, for any property of attributes *)

Section ForOfMore.
Context {X : Type}.
Variable body : X -> nat -> X * completion nat.

Lemma for_of_returns (P : X -> Prop) :
  (forall x r, P x -> exists x' r', body x r = (x', Normal r')) ->
  forall xs r, Forall P xs ->
               exists xs' r', for_of body xs r = (xs', Normal r').
Proof.
  intros Hbody xs r Hall. revert r.
  induction Hall as [|x xs Hx _ IH]; intros r; simpl; [now eauto|].
  destruct (Hbody x r Hx) as (x' & r1 & ->).
  destruct (IH r1) as (xs' & r' & ->). eauto.
Qed.

Lemma for_of_returned (P : X -> Prop) :
  (forall x r x' r', body x r = (x', Normal r') -> P x) ->
  forall xs r xs' r', for_of body xs r = (xs', Normal r') -> Forall P xs.
Proof.
  intros Hbody xs. induction xs as [|x xs IH]; intros r xs' r'; simpl;
    [constructor|].
  destruct (body x r) as [x1 [r1|m]] eqn:Hb; [|discriminate].
  destruct (for_of body xs r1) as [rest [r2|m]] eqn:Hrest; [|discriminate].
  intros _. constructor; eauto.
Qed.

Lemma for_of_counts (weight : X -> nat) :
  (forall x r x' r', body x r = (x', Normal r') -> r' = (r + weight x)%nat) ->
  forall xs r xs' r',
    for_of body xs r = (xs', Normal r') ->
    r' = (r + list_sum (map weight xs))%nat.
Proof.
  intros Hbody xs. induction xs as [|x xs IH]; intros r xs' r'; simpl.
  - intros [= _ <-]. now rewrite Nat.add_0_r.
  - destruct (body x r) as [x1 [r1|m]] eqn:Hb; [|discriminate].
    destruct (for_of body xs r1) as [rest [r2|m]] eqn:Hrest; [|discriminate].
    intros [= _ <-]. rewrite (IH _ _ _ Hrest), (Hbody _ _ _ _ Hb).
    now rewrite Nat.add_assoc.
Qed.

End ForOfMore.

(** The number of attributes of [attrs] that phase 2 resolves. *)
Lemma targets_flat_map {X : Type} (get : X -> list AttributeData.t)
      (xs : list X) :
  list_sum (map (fun x => List.length (filter is_target (get x))) xs) =
  List.length (filter is_target (flat_map get xs)).
Proof.
  induction xs as [|x xs IH]; simpl; [reflexivity|].
  now rewrite filter_app, length_app, IH.
Qed.

(** An inner loop of the pass: the attributes of one composite type,
    table or routine, read by [get] and written back by [set]. *)
Section InnerLoop.
Variable enums : list EnumData.t.
Variable types : list TypeData.t.
Context {X : Type}.
Variable get : X -> list AttributeData.t.
Variable set : list AttributeData.t -> X -> X.
Hypothesis get_set : forall attrs x, get (set attrs x) = attrs.
Hypothesis set_get : forall x, set (get x) x = x.

Lemma inner_loop_fixed (x : X) (r : nat) :
  Forall (fun a => is_target a = false) (get x) ->
  inner_loop enums types get set x r = (x, Normal r).
Proof.
  intros H. unfold inner_loop.
  rewrite for_of_unchanged with (P := fun a => is_target a = false).
  - now rewrite set_get.
  - intros a k Ha. pose proof (resolveAttribute_cases enums types a k) as Hc.
    now rewrite Ha in Hc.
  - exact H.
Qed.

Lemma inner_loop_result (x x' : X) (r r' : nat) :
  inner_loop enums types get set x r = (x', Normal r') ->
  Forall (fun a => is_target a = false) (get x')
  /\ Forall (attr_resolvable enums types) (get x)
  /\ r' = (r + List.length (filter is_target (get x)))%nat.
Proof.
  unfold inner_loop.
  destruct (for_of _ (get x) r) as [attrs c] eqn:Hloop.
  intros [= <- ->]. rewrite get_set. repeat split.
  - refine (@for_of_normal _ _ (fun _ => True) _ _ _ _ _ _ _ Hloop).
    + intros a k a' k' _ Hb.
      pose proof (resolveAttribute_cases enums types a k) as Hc.
      destruct (is_target a) eqn:Ha.
      * destruct Hc as [(_ & a2 & Hr & Ht)|(_ & m & Hr)];
          rewrite Hr in Hb; [now injection Hb as <- _|discriminate].
      * rewrite Hc in Hb. now injection Hb as <- _.
    + apply Forall_forall. auto.
  - refine (@for_of_returned _ _ (attr_resolvable enums types) _ _ _ _ _ Hloop).
    intros a k a' k' Hb.
    pose proof (resolveAttribute_cases enums types a k) as Hc.
    destruct (is_target a) eqn:Ha.
    + destruct Hc as [(Hk & _)|(_ & m & Hr)];
        [exact Hk|rewrite Hr in Hb; discriminate].
    + unfold attr_resolvable. unfold is_target in Ha.
      destruct (target_of (AttributeData.tsType a)); [discriminate|].
      intros u [=].
  - rewrite (@for_of_counts _ (resolveAttribute enums types)
                            (fun a => if is_target a then 1 else 0)%nat)
      with (xs := get x) (r := r) (xs' := attrs) (r' := r'); [| |exact Hloop].
    + f_equal. clear. induction (get x) as [|a l IH]; simpl; [reflexivity|].
      destruct (is_target a); simpl; now rewrite IH.
    + intros a k a' k' Hb.
      pose proof (resolveAttribute_cases enums types a k) as Hc.
      destruct (is_target a).
      * destruct Hc as [(_ & a2 & Hr & _)|(_ & m & Hr)];
          rewrite Hr in Hb; [now injection Hb as _ <-|discriminate].
      * rewrite Hc in Hb. injection Hb as _ <-. now rewrite Nat.add_0_r.
Qed.

Lemma inner_loop_returns (x : X) (r : nat) :
  Forall (attr_resolvable enums types) (get x) ->
  exists x' r', inner_loop enums types get set x r = (x', Normal r').
Proof.
  intros H. unfold inner_loop.
  destruct (@for_of_returns _ (resolveAttribute enums types)
                            (attr_resolvable enums types)) with
    (xs := get x) (r := r) as (attrs & r' & ->); [|exact H|eauto].
  intros a k Ha. pose proof (resolveAttribute_cases enums types a k) as Hc.
  destruct (is_target a).
  - destruct Hc as [(_ & a2 & Hr & _)|(Hno & _)]; [eauto|now elim Hno].
  - eauto.
Qed.

End InnerLoop.

Section PassByTarget.
Variable enums : list EnumData.t.
Variable types : list TypeData.t.

Lemma resolve_in_type_is_inner_loop :
  resolve_in_type enums types =
  inner_loop enums types TypeData.attributes TypeData.set_attributes.
Proof. reflexivity. Qed.

Lemma resolve_in_table_is_inner_loop :
  resolve_in_table enums types =
  inner_loop enums types TableData.columns TableData.set_columns.
Proof. reflexivity. Qed.

Lemma resolve_in_func_is_inner_loop :
  resolve_in_func enums types =
  inner_loop enums types FuncData.parameters FuncData.set_parameters.
Proof. reflexivity. Qed.

(** One outer loop of the pass that returned. *)
Lemma outer_loop_result {X : Type} (get : X -> list AttributeData.t)
      (set : list AttributeData.t -> X -> X)
      (xs xs' : list X) (r r' : nat) :
  (forall attrs x, get (set attrs x) = attrs) ->
  for_of (inner_loop enums types get set) xs r = (xs', Normal r') ->
  Forall (fun a => is_target a = false) (flat_map get xs')
  /\ Forall (attr_resolvable enums types) (flat_map get xs)
  /\ r' = (r + List.length (filter is_target (flat_map get xs)))%nat.
Proof.
  intros get_set Hloop. rewrite !Forall_flat_map. repeat split.
  - refine (@for_of_normal _ _ (fun _ => True) _ _ _ _ _ _ _ Hloop).
    + intros x k x' k' _ Hb.
      now destruct (inner_loop_result _ _ _ _ get_set _ _ Hb).
    + apply Forall_forall. auto.
  - refine (@for_of_returned _ _ _ _ _ _ _ _ Hloop).
    intros x k x' k' Hb.
    now destruct (inner_loop_result _ _ _ _ get_set _ _ Hb) as (_ & H & _).
  - rewrite <- targets_flat_map.
    refine (@for_of_counts _ _ _ _ _ _ _ _ Hloop).
    intros x k x' k' Hb.
    now destruct (inner_loop_result _ _ _ _ get_set _ _ Hb) as (_ & _ & H).
Qed.

Lemma outer_loop_returns {X : Type} (get : X -> list AttributeData.t)
      (set : list AttributeData.t -> X -> X) (xs : list X) (r : nat) :
  Forall (attr_resolvable enums types) (flat_map get xs) ->
  exists xs' r', for_of (inner_loop enums types get set) xs r =
                 (xs', Normal r').
Proof.
  rewrite Forall_flat_map. intros H.
  refine (@for_of_returns _ _ _ _ _ _ H).
  intros x k Hx. now apply inner_loop_returns.
Qed.

End PassByTarget.

Lemma outer_loop_fixed (enums : list EnumData.t) (types : list TypeData.t)
      {X : Type} (get : X -> list AttributeData.t)
      (set : list AttributeData.t -> X -> X) (xs : list X) (r : nat) :
  (forall x, set (get x) x = x) ->
  Forall (fun a => is_target a = false) (flat_map get xs) ->
  for_of (inner_loop enums types get set) xs r = (xs, Normal r).
Proof.
  intros set_get. rewrite Forall_flat_map. intros H.
  rewrite for_of_unchanged
    with (P := fun x => Forall (fun a => is_target a = false) (get x));
    [reflexivity| |exact H].
  intros x k Hx. now apply inner_loop_fixed.
Qed.

(** What a pass that returned has done. *)
Lemma resolveTypes_result (s s' : SchemaData.t) (n : nat) :
  resolveTypes s = (s', Normal n) ->
  Forall (fun a => is_target a = false) (schema_attributes s')
  /\ Forall (attr_resolvable (SchemaData.enums s) (SchemaData.types s))
            (schema_attributes s)
  /\ n = List.length (filter is_target (schema_attributes s)).
Proof.
  unfold resolveTypes.
  rewrite resolve_in_type_is_inner_loop, resolve_in_table_is_inner_loop,
    resolve_in_func_is_inner_loop.
  destruct (for_of _ (SchemaData.types s) 0%nat) as [types' [r1|m]] eqn:Ht;
    [|discriminate].
  destruct (for_of _ (SchemaData.tables s) r1) as [tables' [r2|m]] eqn:Hb;
    [|discriminate].
  destruct (for_of _ (SchemaData.functions s) r2) as [functions' c] eqn:Hf.
  intros [= <- ->].
  apply outer_loop_result in Ht; [|reflexivity].
  apply outer_loop_result in Hb; [|reflexivity].
  apply outer_loop_result in Hf; [|reflexivity].
  destruct Ht as (Ht1 & Ht2 & ->), Hb as (Hb1 & Hb2 & ->),
           Hf as (Hf1 & Hf2 & ->).
  unfold schema_attributes; simpl.
  rewrite !Forall_app, !filter_app, !length_app. repeat split; auto.
  now rewrite Nat.add_assoc.
Qed.

(** X1.  When [resolveTypes] returns, the number it returns is the number
    of attributes, columns and parameters of the schema it was given whose
    type was a marker on its own or directly inside one array. *)
Theorem resolveTypes_counts_targets (s s' : SchemaData.t) (n : nat) :
  resolveTypes s = (s', Normal n) ->
  n = List.length (filter is_target (schema_attributes s)).
Proof. intros H. now apply resolveTypes_result in H. Qed.

Lemma resolveTypes_counts_targets_witness :
  1%nat =
  List.length
    (filter is_target
            (schema_attributes
               (Examples.people (TsArray (UNRESOLVED_UDT (Some "mood")))))).
Proof.
  apply (@resolveTypes_counts_targets
           (Examples.people (TsArray (UNRESOLVED_UDT (Some "mood"))))
           (Examples.people (TsArray (TsEnum "Mood"))) 1%nat).
  reflexivity.
Defined.

(** X2.  [resolveTypes] returns, rather than throws, exactly when every
    name asked for by an attribute, column or parameter (the name of a
    marker on its own or directly inside one array) is the name of a
    composite type or of an enumeration of the schema. *)
Theorem resolveTypes_returns_iff_known (s : SchemaData.t) :
  Forall (attr_resolvable (SchemaData.enums s) (SchemaData.types s))
         (schema_attributes s)
  <-> exists s' n, resolveTypes s = (s', Normal n).
Proof.
  split.
  - unfold schema_attributes. rewrite !Forall_app.
    intros (Ht & Hb & Hf). unfold resolveTypes.
    rewrite resolve_in_type_is_inner_loop, resolve_in_table_is_inner_loop,
      resolve_in_func_is_inner_loop.
    destruct (@outer_loop_returns _ _ _ TypeData.attributes
                TypeData.set_attributes _ 0%nat Ht) as (types' & r1 & ->).
    destruct (@outer_loop_returns _ _ _ TableData.columns
                TableData.set_columns _ r1 Hb) as (tables' & r2 & ->).
    destruct (@outer_loop_returns _ _ _ FuncData.parameters
                FuncData.set_parameters _ r2 Hf) as (functions' & r3 & ->).
    eauto.
  - intros (s' & n & H). now apply resolveTypes_result in H.
Qed.

(** X3.  The pass is idempotent: run on the schema a first pass returned,
    it changes nothing and returns 0. *)
Theorem resolveTypes_twice (s s' : SchemaData.t) (n : nat) :
  resolveTypes s = (s', Normal n) ->
  resolveTypes s' = (s', Normal 0%nat).
Proof.
  intros H. apply resolveTypes_result in H. destruct H as (H & _ & _).
  unfold schema_attributes in H. rewrite !Forall_app in H.
  destruct H as (Ht & Hb & Hf).
  unfold resolveTypes.
  rewrite resolve_in_type_is_inner_loop, resolve_in_table_is_inner_loop,
    resolve_in_func_is_inner_loop.
  rewrite !outer_loop_fixed; auto.
  - now destruct s'.
  - now intros [].
  - now intros [].
  - now intros [].
Qed.

Lemma resolveTypes_twice_witness :
  resolveTypes (Examples.people (TsArray (TsEnum "Mood"))) =
  (Examples.people (TsArray (TsEnum "Mood")), Normal 0%nat).
Proof.
  apply (@resolveTypes_twice
           (Examples.people (TsArray (UNRESOLVED_UDT (Some "mood"))))
           (Examples.people (TsArray (TsEnum "Mood"))) 1%nat).
  reflexivity.
Defined.

(** ** Further properties of phase 1 *)

(** X4.  Whatever type phase 1 deduces, for a column, an attribute, a
    parameter or a return type, a call of [resolveType] on it that returns
    leaves no marker in it, at any depth. *)
Theorem deduced_type_resolves_fully
        (type : string) (udt : option string) (udts : UdtOptions.t)
        (enums : list EnumData.t) (types : list TypeData.t)
        (t t' : TsType) (n : nat) :
  deduceType type udt udts = Some t ->
  resolveType enums types t = (t', Normal n) ->
  has_marker t' = false.
Proof.
  intros Hdeduce Hresolve.
  eapply resolveType_shaped; [|exact Hresolve].
  eapply deduceType_shaped; exact Hdeduce.
Qed.

Lemma deduced_type_resolves_fully_witness :
  has_marker (TsArray (TsInterface "Address")) = false.
Proof.
  apply (@deduced_type_resolves_fully
           "ARRAY" (Some "address") Examples.no_udts
           [Examples.mood] [Examples.address]
           (TsArray (UNRESOLVED_UDT (Some "address")))
           (TsArray (TsInterface "Address")) 1%nat);
    reflexivity.
Defined.

Lemma endsWith_length (s suffix : string) :
  endsWith s suffix = true ->
  (String.length suffix <= String.length s)%nat.
Proof.
  unfold endsWith. intros H. apply andb_true_iff in H.
  now apply Nat.leb_le.
Qed.

(** X5.  An attribute [getAttribute] builds from a row keeps the row's
    name and ordinal; it is not nullable when the row's underlying name ends
    in [_not_null], whatever the row's own flag says, and has the row's flag
    otherwise; and its type has one of the shapes phase 2 resolves. *)
Theorem makeGetAttribute_result
        (udts : UdtOptions.t) (r : AttrRecord.t) (a : AttributeData.t) :
  makeGetAttribute udts r = Normal a ->
  AttributeData.name a = AttrRecord.name r
  /\ AttributeData.order a = AttrRecord.order r
  /\ AttributeData.nullable a =
     match AttrRecord.udt r with
     | Some u => if endsWith u "_not_null" then false
                 else AttrRecord.nullable r
     | None => AttrRecord.nullable r
     end
  /\ attr_shaped a.
Proof.
  unfold makeGetAttribute.
  destruct (AttrRecord.udt r) as [u|].
  - destruct (endsWith u "_not_null");
      match goal with
      | |- context [deduceType ?ty ?ud ?us] =>
          destruct (deduceType ty ud us) as [t|] eqn:Hd; [|discriminate]
      end;
      intros [= <-]; repeat split; simpl;
      unfold attr_shaped; simpl; eapply deduceType_shaped; exact Hd.
  - destruct (deduceType (AttrRecord.type r) None udts) as [t|] eqn:Hd;
      [|discriminate].
    intros [= <-]; repeat split; simpl.
    unfold attr_shaped; simpl; eapply deduceType_shaped; exact Hd.
Qed.

Lemma makeGetAttribute_result_witness :
  AttributeData.name
    (AttributeData.mk "tags" 3 false (TsArray (UNRESOLVED_UDT (Some "mood")))) =
  "tags"
  /\ AttributeData.order
       (AttributeData.mk "tags" 3 false
                         (TsArray (UNRESOLVED_UDT (Some "mood")))) = 3%Z
  /\ AttributeData.nullable
       (AttributeData.mk "tags" 3 false
                         (TsArray (UNRESOLVED_UDT (Some "mood")))) = false
  /\ attr_shaped
       (AttributeData.mk "tags" 3 false
                         (TsArray (UNRESOLVED_UDT (Some "mood")))).
Proof.
  apply (@makeGetAttribute_result
           Examples.no_udts
           (AttrRecord.mk "tags" 3 "ARRAY" (Some "_mood_not_null") true
                          "people")).
  reflexivity.
Defined.

Lemma truthy_and_includes_split (xs : list string) (u : string) :
  truthy_and_includes xs (Some u) = false ->
  u = "" \/ includes xs u = false.
Proof.
  simpl. destruct (u =? "") eqn:Hu; simpl.
  - left. now apply String.eqb_eq.
  - now right.
Qed.

(** X6.  An array type that phase 1 deduces comes from a row typed ARRAY
    with an underlying name [u], and its element is the marker for [u]; the
    only other elements are the marker for [null], when [u] is the
    USER-DEFINED tag, and, when [u] is the empty name and on an allow-list,
    [number] or [string].  Phase 1 deduces no array of booleans or dates,
    and no array of a non-empty built-in or allow-listed name. *)
Theorem deduceType_array_element
        (type : string) (udt : option string) (udts : UdtOptions.t)
        (t : TsType) :
  deduceType type udt udts = Some (TsArray t) ->
  type = "ARRAY"
  /\ exists u,
      udt = Some u
      /\ (t = UNRESOLVED_UDT (Some u)
          \/ (u = "USER-DEFINED" /\ t = UNRESOLVED_UDT None)
          \/ (u = "" /\ (t = TsNumber \/ t = TsString))).
Proof.
  rewrite deduceType_unfold.
  destruct ((type =? "boolean") || is_lit udt "boolean") eqn:Hb;
    [discriminate|].
  destruct (isNumberType (Some type) || isNumberType udt
            || includes (UdtOptions.number udts) type
            || truthy_and_includes (UdtOptions.number udts) udt) eqn:Hn;
    [discriminate|].
  destruct (isStringType (Some type) || isStringType udt
            || includes (UdtOptions.string udts) type
            || truthy_and_includes (UdtOptions.string udts) udt) eqn:Hs;
    [discriminate|].
  destruct (isKnownDateType (Some type) || isKnownDateType udt) eqn:Hd;
    [discriminate|].
  destruct (type =? "USER-DEFINED"); [discriminate|].
  destruct (type =? "ARRAY") eqn:Ha; [|discriminate].
  destruct udt as [u|]; [|discriminate].
  apply String.eqb_eq in Ha. intros [= <-]. split; [exact Ha|].
  exists u. split; [reflexivity|].
  rewrite !orb_false_iff in Hb. rewrite !orb_false_iff in Hn.
  rewrite !orb_false_iff in Hs. rewrite !orb_false_iff in Hd.
  destruct Hb as [_ Hub], Hn as [[[_ Hun] _] Hul], Hs as [[[_ Hus] _] Husl],
           Hd as [_ Hud].
  simpl in Hub. unfold isNumberType in Hun. unfold isStringType in Hus.
  unfold isKnownDateType in Hud.
  rewrite deduceType_unfold.
  unfold isNumberType, isStringType, isKnownDateType.
  rewrite Hun, Hus, Hud. cbn [is_lit truthy_and_includes orb].
  rewrite Hub. cbn [orb]. rewrite !orb_false_r.
  destruct (includes (UdtOptions.number udts) u) eqn:Hin.
  { right. right. apply truthy_and_includes_split in Hul.
    destruct Hul as [->|Hul]; [auto|congruence]. }
  destruct (includes (UdtOptions.string udts) u) eqn:His.
  { right. right. apply truthy_and_includes_split in Husl.
    destruct Husl as [->|Husl]; [auto|congruence]. }
  destruct (u =? "USER-DEFINED") eqn:Hu.
  { right. left. apply String.eqb_eq in Hu. auto. }
  left. now destruct (u =? "ARRAY").
Qed.

Lemma deduceType_array_element_witness :
  "ARRAY" = "ARRAY"
  /\ exists u,
      Some "mood" = Some u
      /\ (UNRESOLVED_UDT (Some "mood") = UNRESOLVED_UDT (Some u)
          \/ (u = "USER-DEFINED"
              /\ UNRESOLVED_UDT (Some "mood") = UNRESOLVED_UDT None)
          \/ (u = ""
              /\ (UNRESOLVED_UDT (Some "mood") = TsNumber
                  \/ UNRESOLVED_UDT (Some "mood") = TsString))).
Proof.
  apply (@deduceType_array_element "ARRAY" (Some "mood") Examples.no_udts).
  reflexivity.
Defined.

(** X7.  A row typed ARRAY whose underlying name is the boolean name, a
    built-in numeric name or (when neither ARRAY nor the name is on the
    number allow-list) a built-in text name is deduced as that scalar, not
    as an array of it. *)
Theorem deduceType_array_of_builtin_is_scalar
        (udts : UdtOptions.t) (u : string) :
  (u = "boolean" -> deduceType "ARRAY" (Some u) udts = Some TsBoolean)
  /\ (In u numberTypes -> deduceType "ARRAY" (Some u) udts = Some TsNumber)
  /\ (In u stringTypes ->
      ~ In "ARRAY" (UdtOptions.number udts) ->
      ~ In u (UdtOptions.number udts) ->
      deduceType "ARRAY" (Some u) udts = Some TsString).
Proof.
  repeat split.
  - intros ->. now rewrite deduceType_unfold.
  - intros Hin. rewrite deduceType_unfold.
    assert (is_lit (Some u) "boolean" = false) as Hb.
    { simpl. apply String.eqb_neq. intros ->.
      unfold numberTypes in Hin; simpl in Hin; intuition discriminate. }
    assert (isNumberType (Some u) = true) as Hn.
    { unfold isNumberType. apply truthy_and_includes_true; [|exact Hin].
      intros ->. unfold numberTypes in Hin; simpl in Hin;
        intuition discriminate. }
    rewrite Hb, Hn. reflexivity.
  - intros Hin Hna Hnu. rewrite deduceType_unfold.
    assert (u <> "" /\ u <> "boolean" /\ ~ In u numberTypes) as (H1 & H2 & H3).
    { unfold stringTypes in Hin; simpl in Hin.
      repeat split; intros H; [subst u| subst u|unfold numberTypes in H; simpl in H];
        intuition (subst; discriminate). }
    assert (is_lit (Some u) "boolean" = false) as ->
        by (simpl; now apply String.eqb_neq).
    assert (isNumberType (Some u) = false) as ->.
    { unfold isNumberType. apply truthy_and_includes_false.
      now intros ? [= <-]. }
    assert (truthy_and_includes (UdtOptions.number udts) (Some u) = false)
      as ->.
    { apply truthy_and_includes_false. now intros ? [= <-]. }
    rewrite (proj2 (includes_not_In _ _) Hna).
    assert (isStringType (Some u) = true) as ->.
    { unfold isStringType. now apply truthy_and_includes_true. }
    reflexivity.
Qed.

Lemma deduceType_array_of_builtin_is_scalar_witness :
  deduceType "ARRAY" (Some "int4") Examples.no_udts = Some TsNumber.
Proof.
  apply (proj1 (proj2 (deduceType_array_of_builtin_is_scalar
                         Examples.no_udts "int4"))).
  unfold numberTypes; simpl; auto.
Defined.

(** X8.  The number allow-list outranks the text names and the string
    allow-list: when neither name is the boolean name, and the raw name is
    on the number allow-list or the underlying name is a non-empty name on
    it, phase 1 deduces [number]. *)
Theorem deduceType_number_allow_list
        (type : string) (udt : option string) (udts : UdtOptions.t) :
  type <> "boolean" ->
  udt <> Some "boolean" ->
  In type (UdtOptions.number udts)
  \/ (exists u, udt = Some u /\ u <> "" /\ In u (UdtOptions.number udts)) ->
  deduceType type udt udts = Some TsNumber.
Proof.
  intros Hb1 Hb2 Hn. rewrite deduceType_unfold.
  assert ((type =? "boolean") || is_lit udt "boolean" = false) as ->.
  { apply orb_false_iff. split; [now apply String.eqb_neq|].
    destruct udt as [u|]; [|reflexivity]. simpl.
    apply String.eqb_neq. congruence. }
  assert (isNumberType (Some type) || isNumberType udt
          || includes (UdtOptions.number udts) type
          || truthy_and_includes (UdtOptions.number udts) udt = true) as ->.
  { destruct Hn as [Hin|(u & -> & Hne & Hin)].
    - rewrite (proj2 (includes_In _ _) Hin). now rewrite !orb_true_r.
    - rewrite truthy_and_includes_true by assumption.
      now rewrite orb_true_r. }
  reflexivity.
Qed.

Lemma deduceType_number_allow_list_witness :
  deduceType "text" (Some "text")
             (UdtOptions.mk ["text"] ["text"]) = Some TsNumber.
Proof.
  apply deduceType_number_allow_list.
  - discriminate.
  - discriminate.
  - left. simpl. auto.
Defined.

(** ** Names *)

Lemma substring_0_length (s : string) :
  String.substring 0 (String.length s) s = s.
Proof. induction s as [|c s IH]; simpl; [reflexivity|now rewrite IH]. Qed.

Lemma substring_from_1 (c : ascii) (rest : string) :
  substring_from 1 (String c rest) = rest.
Proof.
  unfold substring_from. simpl. rewrite Nat.sub_0_r.
  apply substring_0_length.
Qed.

Lemma upper_not_lower (c : ascii) : is_lower (upper c) = false.
Proof.
  destruct c as [[] [] [] [] [] [] [] []]; vm_compute; reflexivity.
Qed.

Lemma upper_of_other (c : ascii) : is_lower c = false -> upper c = c.
Proof. unfold upper. now intros ->. Qed.

Lemma upper_underscore (c : ascii) :
  (upper c =? "_")%char = (c =? "_")%char.
Proof.
  destruct c as [[] [] [] [] [] [] [] []]; vm_compute; reflexivity.
Qed.

(** Induction on a text two characters at a time. *)
Lemma string_pair_ind (P : string -> Prop) :
  P EmptyString ->
  (forall c, P (String c EmptyString)) ->
  (forall c d s, P s -> P (String d s) -> P (String c (String d s))) ->
  forall s, P s.
Proof.
  intros H0 H1 H2 s.
  assert (P s /\ forall c, P (String c s)) as [H _]; [|exact H].
  induction s as [|d s [IH1 IH2]]; split; auto.
Qed.

Lemma replace_underscore_word_plain (s : string) :
  has_char "_" s = false -> replace_underscore_word s = s.
Proof.
  induction s as [|c s IH]; simpl; [reflexivity|].
  intros H. apply orb_false_iff in H. destruct H as [Hc Hs].
  rewrite Hc. now rewrite IH.
Qed.

Lemma replace_underscore_word_snake (s : string) :
  underscores_lead_words s = true ->
  has_char "_" (replace_underscore_word s) = false.
Proof.
  induction s as [|c|c d s IH1 IH2] using string_pair_ind.
  - reflexivity.
  - simpl. destruct (c =? "_")%char eqn:Hc; [discriminate|].
    intros _. simpl. now rewrite Hc.
  - cbn [underscores_lead_words replace_underscore_word].
    destruct (c =? "_")%char eqn:Hc.
    + intros H. apply andb_true_iff in H. destruct H as [H Hs].
      apply andb_true_iff in H. destruct H as [Hw Hd].
      rewrite Hw. cbn [has_char]. rewrite upper_underscore.
      apply negb_true_iff in Hd. rewrite Hd. now apply IH1.
    + intros H. cbn [has_char]. rewrite Hc. now apply IH2.
Qed.

(** X9.  For a snake-case name (its first character is not an underscore,
    and each underscore after it is followed by a word character other than
    an underscore), [snakeToPascal] returns a name with no underscore
    in it. *)
Theorem snakeToPascal_snake_case (c : ascii) (rest : string) :
  (c =? "_")%char = false ->
  underscores_lead_words rest = true ->
  exists name,
    snakeToPascal (String c rest) = Normal name
    /\ has_char "_" name = false.
Proof.
  intros Hc Hrest. eexists. split; [reflexivity|].
  rewrite substring_from_1. cbn [has_char].
  rewrite upper_underscore, Hc. now apply replace_underscore_word_snake.
Qed.

Lemma snakeToPascal_snake_case_witness :
  exists name,
    snakeToPascal "order_line_items" = Normal name
    /\ has_char "_" name = false.
Proof.
  apply snakeToPascal_snake_case; reflexivity.
Defined.

(** X10.  [snakeToPascal] throws on the empty name, and on a name with no
    underscore after its first character (a character of the ASCII range)
    it changes that first character only, to its upper case. *)
Theorem snakeToPascal_plain :
  (exists message, snakeToPascal "" = Throw message)
  /\ forall (c : ascii) (rest : string),
      (nat_of_ascii c < 128)%nat ->
      has_char "_" rest = false ->
      snakeToPascal (String c rest) = Normal (String (upper c) rest).
Proof.
  split; [eexists; reflexivity|].
  intros c rest _ H. unfold snakeToPascal.
  now rewrite substring_from_1, replace_underscore_word_plain.
Qed.

Lemma snakeToPascal_plain_witness :
  snakeToPascal "users" = Normal "Users".
Proof.
  apply (proj2 snakeToPascal_plain "u"%char "sers");
    [vm_compute; lia|reflexivity].
Defined.

(** *** [dashedToCamel] *)

Lemma dashedToCamel_head (s : string) :
  match Options.dashedToCamel s, s with
  | String c' _, String c _ => is_lower c' = is_lower c
  | EmptyString, EmptyString => True
  | _, _ => False
  end.
Proof.
  destruct s as [|c [|d s]]; simpl; auto.
  - destruct (c =? "-")%char; reflexivity.
  - destruct (c =? "-")%char eqn:Hc.
    + apply Ascii.eqb_eq in Hc. subst c.
      destruct (is_lower d); [|reflexivity].
      now rewrite upper_not_lower.
    + reflexivity.
Qed.

Lemma dashedToCamel_pair (c d : ascii) (s : string) :
  Options.dashedToCamel (String c (String d s)) =
  if (c =? "-")%char then
    if is_lower d then String (upper d) (Options.dashedToCamel s)
    else String c (Options.dashedToCamel (String d s))
  else String c (Options.dashedToCamel (String d s)).
Proof. reflexivity. Qed.

Lemma dashedToCamel_no_dash_lower (s : string) :
  has_dash_lower (Options.dashedToCamel s) = false.
Proof.
  induction s as [|c|c d s IH1 IH2] using string_pair_ind.
  - reflexivity.
  - simpl. now destruct (c =? "-")%char.
  - rewrite dashedToCamel_pair.
    destruct (c =? "-")%char eqn:Hc.
    + destruct (is_lower d) eqn:Hd.
      * cbn [has_dash_lower].
        destruct (Options.dashedToCamel s) as [|e s'] eqn:Hs; [reflexivity|].
        rewrite IH1.
        assert ((upper d =? "-")%char = false) as ->; [|reflexivity].
        clear - Hd. destruct d as [[] [] [] [] [] [] [] []];
          vm_compute in Hd |- *; congruence.
      * cbn [has_dash_lower].
        pose proof (dashedToCamel_head (String d s)) as Hh.
        destruct (Options.dashedToCamel (String d s)) as [|e s'] eqn:Hs;
          [reflexivity|].
        rewrite IH2, Hh, Hd. now rewrite andb_false_r.
    + cbn [has_dash_lower].
      destruct (Options.dashedToCamel (String d s)) as [|e s'] eqn:Hs;
        [reflexivity|].
      now rewrite IH2, Hc.
Qed.

Lemma dashedToCamel_fixed (s : string) :
  has_dash_lower s = false -> Options.dashedToCamel s = s.
Proof.
  induction s as [|c|c d s IH1 IH2] using string_pair_ind.
  - reflexivity.
  - simpl. now destruct (c =? "-")%char.
  - cbn [has_dash_lower]. intros H. apply orb_false_iff in H.
    destruct H as [Hcd Hrest].
    rewrite dashedToCamel_pair.
    destruct (c =? "-")%char; simpl in Hcd.
    + rewrite Hcd. now rewrite (IH2 Hrest).
    + now rewrite (IH2 Hrest).
Qed.

(** X11.  In what [dashedToCamel] returns no dash is followed by a letter
    of [a] to [z], and [dashedToCamel] applied to it returns it as it is. *)
Theorem dashedToCamel_idempotent (s : string) :
  has_dash_lower (Options.dashedToCamel s) = false
  /\ Options.dashedToCamel (Options.dashedToCamel s) =
     Options.dashedToCamel s.
Proof.
  split; [apply dashedToCamel_no_dash_lower|].
  apply dashedToCamel_fixed, dashedToCamel_no_dash_lower.
Qed.

(** *** The grouping of [discoverEnums] *)

Lemma push_field_names (n : string) (f : FieldData.t)
      (enums : list EnumData.t) :
  map EnumData.name (push_field n f enums) = map EnumData.name enums.
Proof.
  induction enums as [|e rest IH]; simpl; [reflexivity|].
  destruct (EnumData.name e =? n); simpl; [reflexivity|now rewrite IH].
Qed.

Lemma push_field_In (n : string) (f : FieldData.t)
      (enums : list EnumData.t) (e' : EnumData.t) :
  NoDup (map EnumData.name enums) ->
  In e' (push_field n f enums) ->
  (In e' enums /\ EnumData.name e' <> n)
  \/ (exists e, In e enums /\ EnumData.name e = n
                /\ e' = EnumData.mk (EnumData.name e) (EnumData.tsName e)
                                    (EnumData.fields e ++ [f])%list).
Proof.
  induction enums as [|e rest IH]; simpl; [tauto|].
  intros Hnodup. inversion Hnodup as [|? ? Hnotin Hrest]; subst.
  destruct (EnumData.name e =? n) eqn:Hn.
  - apply String.eqb_eq in Hn. intros [<-|Hin].
    + right. exists e. auto.
    + left. split; [now right|]. intros Heq. apply Hnotin.
      rewrite Hn, <- Heq. now apply in_map.
  - apply String.eqb_neq in Hn. intros [<-|Hin].
    + left. auto.
    + destruct (IH Hrest Hin) as [[H1 H2]|(e0 & H1 & H2 & H3)].
      * left. auto.
      * right. exists e0. auto.
Qed.

Lemma rows_of_app (n : string) (done : list EnumRow.t) (row : EnumRow.t) :
  rows_of n (done ++ [row]) =
  (rows_of n done
   ++ if EnumRow.enum_name row =? n then [row] else [])%list.
Proof. unfold rows_of. now rewrite filter_app. Qed.

Lemma rows_of_none (n : string) (rows : list EnumRow.t) :
  ~ In n (map EnumRow.enum_name rows) -> rows_of n rows = [].
Proof.
  unfold rows_of. induction rows as [|r rows IH]; simpl; [reflexivity|].
  intros H. destruct (EnumRow.enum_name r =? n) eqn:Hr.
  - apply String.eqb_eq in Hr. elim H. now left.
  - apply IH. intros Hin. apply H. now right.
Qed.

Lemma groupEnumRow_grouped (enums enums' : list EnumData.t)
      (done : list EnumRow.t) (row : EnumRow.t) :
  grouped enums done ->
  groupEnumRow enums row = Normal enums' ->
  grouped enums' (done ++ [row]).
Proof.
  intros (Hnodup & Hrows & Henums). unfold groupEnumRow.
  set (n := EnumRow.enum_name row).
  destruct (js_find _ enums) as [e0|] eqn:Hfind.
  - (* the enum exists: the field is pushed onto it *)
    apply find_some in Hfind. destruct Hfind as [Hin0 Hn0].
    apply String.eqb_eq in Hn0.
    intros [= <-]. split; [|split].
    + now rewrite push_field_names.
    + rewrite push_field_names. intros r Hr. apply in_app_or in Hr.
      destruct Hr as [Hr|[<-|[]]]; [now apply Hrows|].
      fold n. rewrite <- Hn0. now apply in_map.
    + intros e He. rewrite map_app, rows_of_app. fold n.
      destruct (@push_field_In _ _ _ _ Hnodup He)
        as [[Hin Hne]|(e1 & Hin & Hn1 & ->)].
      * destruct (Henums e Hin) as (Hf & Hd & Hp).
        apply not_eq_sym in Hne. apply String.eqb_neq in Hne.
        rewrite Hne, app_nil_r.
        split; [exact Hf|split; [apply in_or_app; now left|exact Hp]].
      * destruct (Henums e1 Hin) as (Hf & Hd & Hp). simpl.
        rewrite Hn1 in Hf, Hd, Hp |- *.
        rewrite String.eqb_refl, map_app, Hf.
        split; [reflexivity|split; [apply in_or_app; now left|exact Hp]].
  - (* a new enum, with the field as its only one *)
    assert (~ In n (map EnumData.name enums)) as Hnew.
    { intros Hin. apply in_map_iff in Hin. destruct Hin as (e & He & Hin).
      pose proof (find_none _ _ Hfind e Hin) as Hfalse. simpl in Hfalse.
      fold n in Hfalse. rewrite He, String.eqb_refl in Hfalse. discriminate. }
    destruct (snakeToPascal n) as [tsName|m] eqn:Hpascal; [|discriminate].
    intros [= <-]. split; [|split].
    + rewrite map_app. simpl.
      apply NoDup_Add with (a := n) (l := map EnumData.name enums).
      * clear. induction (map EnumData.name enums) as [|x l IH]; simpl;
          constructor; exact IH.
      * split; assumption.
    + intros r Hr. rewrite map_app. apply in_or_app.
      apply in_app_or in Hr. destruct Hr as [Hr|[<-|[]]];
        [left; now apply Hrows|right; now left].
    + intros e He. rewrite map_app, rows_of_app. fold n.
      apply in_app_or in He. destruct He as [Hin|[<-|[]]].
      * destruct (Henums e Hin) as (Hf & Hd & Hp).
        assert ((n =? EnumData.name e) = false) as ->.
        { apply String.eqb_neq. intros ->. apply Hnew. now apply in_map. }
        rewrite app_nil_r.
        split; [exact Hf|split; [apply in_or_app; now left|exact Hp]].
      * simpl. rewrite String.eqb_refl.
        rewrite rows_of_none.
        -- split; [reflexivity|split; [apply in_or_app; right; now left|]].
           exact Hpascal.
        -- intros Hin. apply in_map_iff in Hin.
           destruct Hin as (r & Hr & Hin). apply Hnew.
           fold n in Hr. rewrite <- Hr. now apply Hrows.
Qed.

Lemma reduce_grouped (rows done : list EnumRow.t)
      (enums enums' : list EnumData.t) :
  grouped enums done ->
  reduce groupEnumRow rows enums = Normal enums' ->
  grouped enums' (done ++ rows).
Proof.
  revert done enums. induction rows as [|row rows IH]; intros done enums Hg.
  - simpl. intros [= <-]. now rewrite app_nil_r.
  - simpl. destruct (groupEnumRow enums row) as [enums1|m] eqn:Hstep;
      [|discriminate].
    intros Hrest.
    replace (done ++ row :: rows)%list with ((done ++ [row]) ++ rows)%list
      by (now rewrite <- app_assoc).
    eapply IH; [|exact Hrest].
    eapply groupEnumRow_grouped; eassumption.
Qed.

(** X12.  The enums [discoverEnums] returns have pairwise distinct names,
    which are the enum names of the rows; the fields of each are the labels
    and sort orders of the rows of that enum, in the order of the rows; and
    the display name of each is what [snakeToPascal] makes of its name. *)
Theorem discoverEnums_groups_rows
        (rows : list EnumRow.t) (enums : list EnumData.t) :
  discoverEnums rows = Normal enums ->
  NoDup (map EnumData.name enums)
  /\ (forall r, In r rows ->
                In (EnumRow.enum_name r) (map EnumData.name enums))
  /\ (forall e, In e enums ->
                EnumData.fields e =
                map field_of (rows_of (EnumData.name e) rows)
                /\ In (EnumData.name e) (map EnumRow.enum_name rows)
                /\ snakeToPascal (EnumData.name e) =
                   Normal (EnumData.tsName e)).
Proof.
  intros H. apply (@reduce_grouped rows [] [] enums); [|exact H].
  split; [constructor|split; [intros r []|intros e []]].
Qed.

Lemma discoverEnums_groups_rows_witness :
  NoDup (map EnumData.name [Examples.mood])
  /\ (forall r,
         In r [EnumRow.mk "happy" 1 "mood"; EnumRow.mk "sad" 2 "mood"] ->
         In (EnumRow.enum_name r) (map EnumData.name [Examples.mood]))
  /\ (forall e,
         In e [Examples.mood] ->
         EnumData.fields e =
         map field_of
             (rows_of (EnumData.name e)
                      [EnumRow.mk "happy" 1 "mood"; EnumRow.mk "sad" 2 "mood"])
         /\ In (EnumData.name e)
               (map EnumRow.enum_name
                    [EnumRow.mk "happy" 1 "mood"; EnumRow.mk "sad" 2 "mood"])
         /\ snakeToPascal (EnumData.name e) = Normal (EnumData.tsName e)).
Proof.
  apply discoverEnums_groups_rows. reflexivity.
Defined.

(** ** Transports and middleware *)

Lemma has_lower_app (a b : string) :
  has_lower (a ++ b) = has_lower a || has_lower b.
Proof.
  induction a as [|c a IH]; simpl; [reflexivity|].
  now rewrite IH, orb_assoc.
Qed.

Lemma toUpperCase_no_lower (s : string) : has_lower (toUpperCase s) = false.
Proof.
  induction s as [|c s IH]; simpl; [reflexivity|].
  now rewrite upper_not_lower, IH.
Qed.

Lemma eqb_by_lower (a b : string) :
  has_lower a = false -> has_lower b = true -> (a =? b) = false.
Proof.
  intros Ha Hb. apply String.eqb_neq. intros ->. congruence.
Qed.

(** X13.  Whatever the method and the path of the request, the middleware
    answers 404 with no body and calls no operation of the transport: the
    route it compares is in upper case, and each route of the [switch] has
    lower-case letters in it.  This holds of any upper-casing that leaves no
    letter of [a] to [z]. *)
Theorem middleware_always_404
        (R : Type) (api : ApiTransport.t R)
        (parseSelect : string -> completion SelectQuery.t)
        (parseInsert : string -> completion InsertCommand.t)
        (parseUpdate : string -> completion UpdateCommand.t)
        (parseDelete : string -> completion DeleteCommand.t)
        (parseCall : string -> completion CallCommand.t)
        (stringify : R -> string) (upperCase : string -> string)
        (context : Middleware.Context.t) :
  (forall s, has_lower (upperCase s) = false) ->
  Middleware.middleware api parseSelect parseInsert parseUpdate parseDelete
                        parseCall stringify upperCase context =
  Normal (Middleware.Response.mk (Some "application/json") (Some 404%Z) None).
Proof.
  intros Hupper. unfold Middleware.middleware.
  set (route := upperCase (Middleware.Context.method context) ++ " "
                ++ upperCase (Middleware.Context.path context)).
  assert (has_lower route = false) as Hroute.
  { unfold route. rewrite !has_lower_app, !Hupper. reflexivity. }
  rewrite !(@eqb_by_lower route _ Hroute) by reflexivity.
  reflexivity.
Qed.

Lemma middleware_always_404_witness :
  Middleware.middleware
    Examples.recorder
    (fun _ => Throw "unused") (fun _ => Throw "unused")
    (fun _ => Throw "unused") (fun _ => Throw "unused")
    (fun _ => Throw "unused") (fun r => r) toUpperCase
    (Middleware.Context.mk "get" "/select" "{}" "") =
  Normal (Middleware.Response.mk (Some "application/json") (Some 404%Z) None).
Proof.
  apply middleware_always_404. exact toUpperCase_no_lower.
Defined.

Lemma noTrailingSlash_value (s : string) :
  WebTransport.noTrailingSlash s = if endsWith s "/" then "/" else s.
Proof.
  unfold WebTransport.noTrailingSlash.
  destruct (endsWith s "/") eqn:Hends; [|reflexivity].
  unfold endsWith in Hends. apply andb_true_iff in Hends.
  destruct Hends as [Hlen Hsub]. apply Nat.leb_le in Hlen. simpl in Hlen.
  apply String.eqb_eq in Hsub. simpl String.length in Hsub.
  unfold substring_from.
  replace (String.length s - (String.length s - 1))%nat with 1%nat
    by (clear - Hlen; lia).
  exact Hsub.
Qed.

(** X14.  The base URL a [WebTransport] keeps is the one it was given,
    unless that one ends in a slash: then it keeps the slash alone, and every
    request goes to a URL that starts with two slashes. *)
Theorem WebTransport_urls
        (R : Type) (request : string -> string -> option WebTransport.Body -> R)
        (qstring : SelectQuery.t -> string) (baseUrl : string) :
  let root := if endsWith baseUrl "/" then "/" else baseUrl in
  let transport := WebTransport.new request qstring baseUrl in
  (forall q, ApiTransport.select transport q =
             request "get" (root ++ "/select?query=" ++ qstring q) None)
  /\ (forall c, ApiTransport.insert transport c =
                request "post" (root ++ "/insert")
                        (Some (WebTransport.InsertBody c)))
  /\ (forall c, ApiTransport.update transport c =
                request "patch" (root ++ "/update")
                        (Some (WebTransport.UpdateBody c)))
  /\ (forall c, ApiTransport.delete transport c =
                request "delete" (root ++ "/delete")
                        (Some (WebTransport.DeleteBody c)))
  /\ (forall c, ApiTransport.call transport c =
                request "post" (root ++ "/call")
                        (Some (WebTransport.CallBody c))).
Proof.
  cbv zeta. unfold WebTransport.new. rewrite noTrailingSlash_value.
  repeat split.
Qed.

(** X15.  Over a [DbTransport], [fetch] of a select builder hands the
    rendered text to [db.any], and [execute] of an insert, update or delete
    builder throws "Method not implemented.", whatever the command. *)
Theorem DbTransport_only_selects
        (R : Type) (db_any : string -> R) (format : IFormatting.t)
        (table : TableData.t) :
  (forall q,
      Client.SelectBuilder.fetch
        (Client.SelectBuilder.mk (DbTransport.new db_any format) table q) =
      Normal (db_any (SqlGenerator.select format q)))
  /\ (forall c,
         Client.InsertBuilder.execute
           (Client.InsertBuilder.mk (DbTransport.new db_any format) table c) =
         Throw "Method not implemented.")
  /\ (forall c,
         Client.UpdateBuilder.execute
           (Client.UpdateBuilder.mk (DbTransport.new db_any format) table c) =
         Throw "Method not implemented.")
  /\ (forall c,
         Client.DeleteBuilder.execute
           (Client.DeleteBuilder.mk (DbTransport.new db_any format) table c) =
         Throw "Method not implemented.")
  /\ (forall (func : FuncData.t) (parameters : list JsValue),
         Client.ApiClient.functionApi (DbTransport.new db_any format) func
                                      parameters =
         Throw "Method not implemented.").
Proof. repeat split. Qed.

(** ** The builders and the renderer together *)

Section Where.
Context {Q : Type} {H : Client.HasConditions Q} {L : LawfulConditions H}.

Lemma where_is_push (column : string) (q : Q) (operator value : JsValue) :
  Client.where_ column q operator value =
  Client.push_condition (appended_condition column operator value) q.
Proof.
  unfold Client.where_, appended_condition.
  destruct (negb (Client.is_undefined value)
            && Client.isBinaryOperator operator); [reflexivity|].
  now destruct (Client.isUnaryOperator operator).
Qed.

Lemma where_conditions (column : string) (q : Q) (operator value : JsValue) :
  Client.get_conditions (Client.where_ column q operator value) =
  Some (conditions_of q ++ [appended_condition column operator value])%list.
Proof.
  rewrite where_is_push. unfold Client.push_condition.
  now rewrite get_set_conditions.
Qed.

Lemma conditions_of_where (column : string) (q : Q)
      (operator value : JsValue) :
  conditions_of (Client.where_ column q operator value) =
  (conditions_of q ++ [appended_condition column operator value])%list.
Proof.
  unfold conditions_of at 1. now rewrite where_conditions.
Qed.

End Where.

Lemma operator_text_In (xs : list string) (o : JsValue) :
  match o with JsString s => includes xs s | _ => false end = true ->
  In (Client.operator_text o) xs.
Proof.
  destruct o; try discriminate. simpl. apply includes_In.
Qed.

Lemma appended_condition_well_formed
      (column : string) (operator value : JsValue) :
  well_formed_condition (appended_condition column operator value)
  /\ condition_column (appended_condition column operator value) = column.
Proof.
  unfold appended_condition.
  destruct (negb (Client.is_undefined value)
            && Client.isBinaryOperator operator) eqn:Hb.
  - apply andb_true_iff in Hb. destruct Hb as [_ Hb].
    split; [|reflexivity]. cbn [well_formed_condition].
    exact (operator_text_In Client.binaryOperators operator Hb).
  - destruct (Client.isUnaryOperator operator) eqn:Hu.
    + split; [|reflexivity]. cbn [well_formed_condition].
      exact (operator_text_In Client.unaryOperators operator Hu).
    + split; [|reflexivity]. simpl. auto.
Qed.

(** X16.  A call of [where] on a select query, an update command or a
    delete command keeps the conditions it finds, in their order, and adds
    one at the end: a condition on the column given, whose operator is a
    unary operator when the condition is unary and a binary operator when it
    is binary. *)
Theorem where_appends_one_condition
        (Q : Type) (H : Client.HasConditions Q) (L : LawfulConditions H)
        (column : string) (q : Q) (operator value : JsValue) :
  exists c,
    Client.get_conditions (Client.where_ column q operator value) =
    Some (conditions_of q ++ [c])%list
    /\ well_formed_condition c
    /\ condition_column c = column.
Proof.
  exists (appended_condition column operator value).
  split; [apply where_conditions|apply appended_condition_well_formed].
Qed.

Lemma where_appends_one_condition_witness :
  exists c,
    Client.get_conditions
      (Client.where_ "id" (SelectQuery.mk "users" None None None None None)
                     (JsNumber 7) JsUndefined) =
    Some (conditions_of (SelectQuery.mk "users" None None None None None)
          ++ [c])%list
    /\ well_formed_condition c
    /\ condition_column c = "id".
Proof.
  apply (@where_appends_one_condition
           SelectQuery.t Client.SelectQuery_conditions SelectQuery_lawful).
Defined.

(** X17.  A binary operator given to [where] without a value is not taken
    as an operator: the condition compares the column with the operator's
    text by [=].  A unary operator is taken as one whatever value comes with
    it, and the value is dropped. *)
Theorem where_operator_edges
        (Q : Type) (H : Client.HasConditions Q)
        (column : string) (q : Q) (operator value : JsValue) :
  (Client.isBinaryOperator operator = true ->
   Client.where_ column q operator JsUndefined =
   Client.push_condition (BinaryCondition column "=" operator) q)
  /\ (Client.isUnaryOperator operator = true ->
      Client.where_ column q operator value =
      Client.push_condition
        (UnaryCondition column (Client.operator_text operator)) q).
Proof.
  split; intros Hop; unfold Client.where_.
  - simpl. destruct operator as [ | | | |s]; try discriminate.
    simpl in Hop. unfold Client.binaryOperators, includes in Hop.
    simpl in Hop. rewrite !orb_false_r in Hop.
    assert (Client.isUnaryOperator (JsString s) = false) as ->; [|reflexivity].
    unfold Client.isUnaryOperator, Client.unaryOperators, includes. simpl.
    repeat (apply orb_true_iff in Hop; destruct Hop as [Hop|Hop]);
      apply String.eqb_eq in Hop; subst s; reflexivity.
  - destruct operator as [ | | | |s]; try discriminate.
    assert (Client.isBinaryOperator (JsString s) = false) as ->.
    { simpl in Hop. unfold Client.unaryOperators, includes in Hop.
      simpl in Hop. rewrite !orb_false_r in Hop.
      unfold Client.isBinaryOperator, Client.binaryOperators, includes. simpl.
      repeat (apply orb_true_iff in Hop; destruct Hop as [Hop|Hop]);
        apply String.eqb_eq in Hop; subst s; reflexivity. }
    rewrite andb_false_r, Hop. reflexivity.
Qed.

Lemma where_operator_edges_witness :
  Client.where_ "age" (SelectQuery.mk "users" None None None None None)
                (JsString ">") JsUndefined =
  Client.push_condition (BinaryCondition "age" "=" (JsString ">"))
                        (SelectQuery.mk "users" None None None None None).
Proof.
  apply (proj1 (@where_operator_edges
                  SelectQuery.t Client.SelectQuery_conditions
                  "age" (SelectQuery.mk "users" None None None None None)
                  (JsString ">") JsNull)).
  reflexivity.
Defined.

Lemma or_asc_explicit (direction : option string) :
  negb (Client.direction_is direction "asc")
  && negb (Client.direction_is direction "desc") = false ->
  Client.or_asc direction = "asc" \/ Client.or_asc direction = "desc".
Proof.
  destruct direction as [d|]; simpl; [|discriminate].
  destruct (d =? "asc") eqn:Ha; simpl.
  - apply String.eqb_eq in Ha. subst d. now left.
  - destruct (d =? "desc") eqn:Hd; simpl; [|discriminate].
    apply String.eqb_eq in Hd. subst d. now right.
Qed.

(** X18.  In every select builder reached from [select] of a table by the
    chain methods, the builder still holds the transport and the table it
    was made for, its query names that table, every condition of the query
    has an operator of its arity, and the ordering, when there is one, has
    the direction [asc] or [desc]. *)
Theorem built_select_invariant
        (R : Type) (transport : ApiTransport.t R) (table : TableData.t)
        (b : Client.SelectBuilder.t R) :
  built transport table b ->
  Client.SelectBuilder.transport b = transport
  /\ Client.SelectBuilder.table b = table
  /\ SelectQuery.table (Client.SelectBuilder.query b) = TableData.name table
  /\ Forall well_formed_condition
            (conditions_of (Client.SelectBuilder.query b))
  /\ (forall o, SelectQuery.orderBy (Client.SelectBuilder.query b) = Some o ->
                OrderBy.direction o = "asc" \/ OrderBy.direction o = "desc").
Proof.
  induction 1 as [columns|n b Hb IH|n b Hb IH|column operator value b Hb IH
                  |columns direction b b' Hb IH Horder].
  - repeat split; simpl; try constructor. discriminate.
  - destruct IH as (H1 & H2 & H3 & H4 & H5). repeat split; assumption.
  - destruct IH as (H1 & H2 & H3 & H4 & H5). repeat split; assumption.
  - destruct IH as (H1 & H2 & H3 & H4 & H5).
    split; [exact H1|split; [exact H2|split; [|split]]].
    + unfold Client.SelectBuilder.where_. simpl.
      rewrite where_is_push. exact H3.
    + cbn [Client.SelectBuilder.where_ Client.SelectBuilder.set_query
             Client.SelectBuilder.query].
      rewrite conditions_of_where. apply Forall_app. split; [exact H4|].
      constructor; [apply appended_condition_well_formed|constructor].
    + unfold Client.SelectBuilder.where_. simpl.
      rewrite where_is_push. exact H5.
  - destruct IH as (H1 & H2 & H3 & H4 & H5).
    unfold Client.SelectBuilder.orderBy in Horder.
    destruct (negb (Client.direction_is direction "asc")
              && negb (Client.direction_is direction "desc")) eqn:Hdir;
      [discriminate|].
    injection Horder as <-. repeat split; try assumption.
    simpl. intros o [= <-]. simpl. now apply or_asc_explicit.
Qed.

Lemma built_select_invariant_witness :
  Client.SelectBuilder.transport Examples.active_users = Examples.recorder
  /\ Client.SelectBuilder.table Examples.active_users = Examples.users
  /\ SelectQuery.table (Client.SelectBuilder.query Examples.active_users) =
     TableData.name Examples.users
  /\ Forall well_formed_condition
            (conditions_of (Client.SelectBuilder.query Examples.active_users))
  /\ (forall o,
         SelectQuery.orderBy
           (Client.SelectBuilder.query Examples.active_users) = Some o ->
         OrderBy.direction o = "asc" \/ OrderBy.direction o = "desc").
Proof.
  apply built_select_invariant.
  apply built_limit, built_where, built_new.
Defined.

(** X19.  A limit of 0 and an offset of 0 leave no clause in the text:
    the query renders as the one with no limit, respectively no offset. *)
Theorem select_drops_zero (format : IFormatting.t) (q : SelectQuery.t) :
  SqlGenerator.select format (with_limit (Some 0%Z) q) =
  SqlGenerator.select format (with_limit None q)
  /\ SqlGenerator.select format (with_offset (Some 0%Z) q) =
     SqlGenerator.select format (with_offset None q).
Proof. split; reflexivity. Qed.

(** X20.  The text of a select builder no chain method was called on: the
    column list is [*] for ["*"] and the quoted names joined by commas for a
    list (nothing at all for the empty list), the table name follows [from],
    and the line of the conditions holds the text [undefined]. *)
Theorem select_of_new_builder
        (R : Type) (api : Client.ClientTableApi.t R)
        (columns : Client.ColumnsArg) (format : IFormatting.t) :
  SqlGenerator.select
    format
    (Client.SelectBuilder.query (Client.ClientTableApi.select api columns)) =
  SqlGenerator.LF ++ "      select "
  ++ match columns with
     | Client.AllColumns => "*"
     | Client.ColumnList names =>
         join "," (map (IFormatting.name format) names)
     end
  ++ SqlGenerator.LF ++ "      from "
  ++ TableData.name (Client.ClientTableApi.table api)
  ++ SqlGenerator.LF ++ "      undefined "
  ++ SqlGenerator.LF ++ "      "
  ++ SqlGenerator.LF ++ "      "
  ++ SqlGenerator.LF ++ "      "
  ++ SqlGenerator.LF ++ "    ".
Proof.
  unfold SqlGenerator.select. destruct columns; reflexivity.
Qed.

Lemma join_snoc (sep : string) (xs : list string) (x : string) :
  join sep (xs ++ [x]) =
  match xs with
  | [] => x
  | _ => join sep xs ++ sep ++ x
  end.
Proof.
  unfold join. induction xs as [|y ys IH]; [reflexivity|].
  destruct ys as [|z zs]; [reflexivity|].
  change (String.concat sep ((y :: z :: zs) ++ [x]))
    with (y ++ sep ++ String.concat sep ((z :: zs) ++ [x])).
  rewrite IH.
  change (String.concat sep (y :: z :: zs))
    with (y ++ sep ++ String.concat sep (z :: zs)).
  now rewrite !append_assoc.
Qed.

Lemma generateCondition_shape (format : IFormatting.t) (c : Condition) :
  SqlGenerator.generateCondition format c =
  IFormatting.name format (condition_column c) ++ " "
  ++ match c with
     | UnaryCondition _ op => op
     | BinaryCondition _ op v => op ++ IFormatting.value format v
     end.
Proof. destruct c; reflexivity. Qed.

(** X21.  What a call of [where] adds to the text of the conditions: the
    text so far, followed by [ and ] when there was a condition, then the
    quoted column, a space and the operator, and for a binary condition the
    formatted value right after the operator. *)
Theorem where_then_render
        (format : IFormatting.t) (q : SelectQuery.t)
        (column : string) (operator value : JsValue) :
  conditions_text format (Client.where_ column q operator value) =
  match conditions_of q with
  | [] => ""
  | _ => conditions_text format q ++ " and "
  end
  ++ IFormatting.name format column ++ " "
  ++ match appended_condition column operator value with
     | UnaryCondition _ op => op
     | BinaryCondition _ op v => op ++ IFormatting.value format v
     end.
Proof.
  unfold conditions_text.
  change (SelectQuery.conditions (Client.where_ column q operator value))
    with (Client.get_conditions (Client.where_ column q operator value)).
  rewrite where_conditions, map_app.
  change (map (SqlGenerator.generateCondition format)
              [appended_condition column operator value])
    with [SqlGenerator.generateCondition
            format (appended_condition column operator value)].
  rewrite join_snoc.
  rewrite generateCondition_shape.
  rewrite (proj2 (appended_condition_well_formed column operator value)).
  unfold conditions_of. simpl Client.get_conditions.
  destruct (SelectQuery.conditions q) as [[|c cs]|];
    [reflexivity| |reflexivity].
  now rewrite append_assoc.
Qed.

(** *** [ApiClient.create] *)

Section Define.
Context {R X : Type}.
Variable name_of : X -> string.
Variable member : X -> Client.ApiClient.Member R.

(** What a run of definitions that returned has done. *)
Lemma define_each_returned
      (xs : list X) (client client' : Client.ApiClient.Object R) :
  Client.ApiClient.define_each name_of member xs client = Normal client' ->
  NoDup (map name_of xs)
  /\ (forall x, In x xs -> client (name_of x) = None)
  /\ (forall x, In x xs -> client' (name_of x) = Some (member x))
  /\ (forall q, ~ In q (map name_of xs) -> client' q = client q).
Proof.
  revert client. induction xs as [|x xs IH]; intros client; simpl.
  - intros [= <-]. repeat split; try constructor; tauto.
  - unfold Client.ApiClient.define.
    destruct (client (name_of x)) as [v|] eqn:Hfree; [discriminate|].
    intros Hrest. apply IH in Hrest.
    destruct Hrest as (Hnodup & Hnone & Hsome & Hother).
    assert (~ In (name_of x) (map name_of xs)) as Hnew.
    { intros Hin. apply in_map_iff in Hin. destruct Hin as (y & Hy & Hin).
      specialize (Hnone y Hin). simpl in Hnone.
      rewrite Hy, String.eqb_refl in Hnone. discriminate. }
    repeat split.
    + now constructor.
    + intros y [<-|Hin]; [exact Hfree|].
      specialize (Hnone y Hin). simpl in Hnone.
      now destruct (name_of y =? name_of x).
    + intros y [<-|Hin]; [|now apply Hsome].
      rewrite (Hother _ Hnew). now rewrite String.eqb_refl.
    + intros q Hq.
      rewrite Hother by (intros Hin; apply Hq; now right).
      destruct (q =? name_of x) eqn:Heq; [|reflexivity].
      apply String.eqb_eq in Heq. elim Hq. now left.
Qed.

Lemma define_each_returns (xs : list X) (client : Client.ApiClient.Object R) :
  NoDup (map name_of xs) ->
  (forall x, In x xs -> client (name_of x) = None) ->
  exists client',
    Client.ApiClient.define_each name_of member xs client = Normal client'.
Proof.
  revert client. induction xs as [|x xs IH]; intros client Hnodup Hfree;
    simpl; [eauto|].
  inversion Hnodup as [|? ? Hnew Hrest]; subst.
  unfold Client.ApiClient.define.
  rewrite (Hfree x (or_introl eq_refl)).
  apply IH; [exact Hrest|].
  intros y Hin. simpl.
  destruct (name_of y =? name_of x) eqn:Heq.
  - apply String.eqb_eq in Heq. elim Hnew. rewrite <- Heq.
    now apply in_map.
  - apply Hfree. now right.
Qed.

End Define.

(** X22.  [ApiClient.create] returns a client exactly when the names of
    the tables and of the routines of the schema, taken together, are
    pairwise distinct, and throws otherwise.  The client it returns has a
    property for each of these names and for no other name: for a table,
    the table API made of the transport and that table; for a routine, the
    function that hands the transport's [call] the routine's name and the
    arguments. *)
Theorem create_defines_each_name_once
        (R : Type) (schema : SchemaData.t) (transport : ApiTransport.t R) :
  (NoDup (client_names schema) <->
   exists client, Client.ApiClient.create schema transport = Normal client)
  /\ forall client,
      Client.ApiClient.create schema transport = Normal client ->
      (forall table,
          In table (SchemaData.tables schema) ->
          Client.ApiClient.get client (TableData.name table) =
          Some (Client.ApiClient.TableMember
                  (Client.ClientTableApi.mk transport table)))
      /\ (forall func,
             In func (SchemaData.functions schema) ->
             Client.ApiClient.get client (FuncData.name func) =
             Some (Client.ApiClient.FunctionMember
                     (Client.ApiClient.functionApi transport func)))
      /\ (forall p,
             ~ In p (client_names schema) ->
             Client.ApiClient.get client p = None).
Proof.
  unfold Client.ApiClient.create, Client.ApiClient.get, client_names.
  set (table_member := fun table : TableData.t =>
         Client.ApiClient.TableMember (Client.ClientTableApi.mk transport table)).
  set (func_member := fun func : FuncData.t =>
         Client.ApiClient.FunctionMember
           (Client.ApiClient.functionApi transport func)).
  set (tables := SchemaData.tables schema).
  set (functions := SchemaData.functions schema).
  split; [split|].
  - (* distinct names: both runs return *)
    intros Hnodup.
    pose proof (NoDup_app_remove_r _ _ Hnodup) as Hnt.
    pose proof (NoDup_app_remove_l _ _ Hnodup) as Hnf.
    destruct (@define_each_returns R _ TableData.name table_member tables
                Client.ApiClient.empty Hnt (fun _ _ => eq_refl))
      as (c & Hc).
    rewrite Hc.
    destruct (define_each_returned _ _ _ _ Hc) as (_ & _ & _ & Hother).
    apply define_each_returns; [exact Hnf|].
    intros f Hin. rewrite Hother; [reflexivity|].
    intros Hint.
    assert (In (FuncData.name f) (map FuncData.name functions)) as Hinf
        by now apply in_map.
    clear - Hnodup Hint Hinf.
    induction (map TableData.name tables) as [|t ts IH]; [exact Hint|].
    simpl in Hnodup. inversion Hnodup as [|? ? Hnew Hrest]; subst.
    destruct Hint as [->|Hint]; [|now apply IH].
    apply Hnew. apply in_or_app. now right.
  - (* a client was returned: the names are distinct *)
    intros (client & Hcreate).
    destruct (Client.ApiClient.define_each TableData.name table_member
                tables Client.ApiClient.empty) as [c|m] eqn:Hc;
      [|discriminate].
    destruct (define_each_returned _ _ _ _ Hc) as (Hnt & _ & Hsome & _).
    destruct (define_each_returned _ _ _ _ Hcreate) as (Hnf & Hfree & _ & _).
    apply NoDup_app; [exact Hnt|exact Hnf|].
    intros p Hpt Hpf.
    apply in_map_iff in Hpt. destruct Hpt as (t & <- & Hint).
    apply in_map_iff in Hpf. destruct Hpf as (f & Heq & Hinf).
    specialize (Hfree f Hinf). rewrite Heq, (Hsome t Hint) in Hfree.
    discriminate.
  - intros client Hcreate.
    destruct (Client.ApiClient.define_each TableData.name table_member
                tables Client.ApiClient.empty) as [c|m] eqn:Hc;
      [|discriminate].
    destruct (define_each_returned _ _ _ _ Hc)
      as (Hnt & _ & Htsome & Htother).
    destruct (define_each_returned _ _ _ _ Hcreate)
      as (Hnf & Hfree & Hfsome & Hfother).
    split; [|split].
    + intros table Hin. rewrite Hfother; [now apply Htsome|].
      intros Hinf. apply in_map_iff in Hinf.
      destruct Hinf as (f & Heq & Hinf).
      specialize (Hfree f Hinf). rewrite Heq, (Htsome table Hin) in Hfree.
      discriminate.
    + exact Hfsome.
    + intros p Hp.
      rewrite Hfother by (intros Hin; apply Hp, in_or_app; now right).
      rewrite Htother by (intros Hin; apply Hp, in_or_app; now left).
      reflexivity.
Qed.
